(** * The weather particle engine (src/engine.js)

    A shallow embedding of [createDefaultWeatherState], [applyMapping],
    [updateParticle] and the 3D vector helpers of src/engine.js.

    The engine is written once, over an interface [JsNumber] of the
    operations the JavaScript code applies to numbers.  Three instances are
    given:
    - [float], the binary64 numbers the JavaScript runtime computes with;
      the engine evaluates on them, so concrete scenarios are run as the
      program runs them, and what is proved of them is proved from the
      specification of the binary64 operations;
    - [xreal], the real numbers extended with [NaN]: exact arithmetic,
      without rounding and without overflow;
    - [xreal] again with a rounding [rnd] applied to the result of every
      operation: arithmetic with rounding, without overflow.

    Objects live in a store and are passed by reference, as in the source:
    [updateParticle] writes the particle it is given, [applyMapping]
    allocates the object it returns.  An object is an ordinary object, whose
    prototype is [Object.prototype]. *)

From Stdlib Require Import PrimFloat Uint63 Floats.
From Stdlib Require Import ZArith Reals Lra Lia.
From stdpp Require Import gmap strings.

Set Default Proof Using "Type".

(** ** Numbers *)

(** What the engine does with a JavaScript number. *)
Class JsNumber (N : Type) := {
  nadd : N → N → N;          (* a + b *)
  nsub : N → N → N;          (* a - b *)
  nmul : N → N → N;          (* a * b *)
  ndiv : N → N → N;          (* a / b *)
  nneg : N → N;              (* -a *)
  nsqrt : N → N;             (* Math.sqrt(a) *)
  nmin : N → N → N;          (* Math.min(a, b) *)
  nmax : N → N → N;          (* Math.max(a, b) *)
  nis_zero : N → bool;       (* a === 0 *)
  ntruthy : N → bool;        (* ToBoolean(a): neither 0 nor NaN *)
  nNaN : N;                  (* ToNumber(undefined) *)
  ndec : Z → nat → N;        (* the decimal literal m / 10^k *)
}.

Declare Scope js_scope.
Delimit Scope js_scope with js.
Infix "+" := nadd : js_scope.
Infix "-" := nsub : js_scope.
Infix "*" := nmul : js_scope.
Infix "/" := ndiv : js_scope.
Notation "- x" := (nneg x) : js_scope.

(** *** Exact arithmetic: the reals and NaN *)

Inductive xreal : Type :=
  | Fin (r : R)
  | NaN.

Definition xlift2 (f : R → R → R) (a b : xreal) : xreal :=
  match a, b with
  | Fin x, Fin y => Fin (f x y)
  | _, _ => NaN
  end.

(** JavaScript divides by zero into an infinity or NaN; the reals have no
    infinity and the quotient by zero is NaN here.  The engine tests or
    floors each of its divisors. *)
Definition xdiv (a b : xreal) : xreal :=
  match a, b with
  | Fin x, Fin y => if Req_dec_T y 0 then NaN else Fin (x / y)
  | _, _ => NaN
  end.

Definition xneg (a : xreal) : xreal :=
  match a with Fin x => Fin (- x) | NaN => NaN end.

Definition xsqrt (a : xreal) : xreal :=
  match a with
  | Fin x => if Rlt_dec x 0 then NaN else Fin (sqrt x)
  | NaN => NaN
  end.

Definition xis_zero (a : xreal) : bool :=
  match a with
  | Fin x => if Req_dec_T x 0 then true else false
  | NaN => false
  end.

Definition xtruthy (a : xreal) : bool :=
  match a with
  | Fin x => if Req_dec_T x 0 then false else true
  | NaN => false
  end.

Definition xdec (m : Z) (k : nat) : xreal := Fin (IZR m / 10 ^ k).

#[export] Instance xreal_number : JsNumber xreal := {|
  nadd := xlift2 Rplus;
  nsub := xlift2 Rminus;
  nmul := xlift2 Rmult;
  ndiv := xdiv;
  nneg := xneg;
  nsqrt := xsqrt;
  nmin := xlift2 Rmin;
  nmax := xlift2 Rmax;
  nis_zero := xis_zero;
  ntruthy := xtruthy;
  nNaN := NaN;
  ndec := xdec;
|}.

(** A number that is not NaN. *)
Definition is_fin (a : xreal) : bool :=
  match a with Fin _ => true | NaN => false end.

(** *** Arithmetic with rounding *)

(** Every operation returns its exact result rounded by [rnd]; comparisons,
    [Math.min], [Math.max] and the negation are exact, and so is an integer
    literal.  There is no overflow: the exponent range is not bounded. *)
Definition rlift2 (rnd : R → R) (f : R → R → R) (a b : xreal) : xreal :=
  match a, b with
  | Fin x, Fin y => Fin (rnd (f x y))
  | _, _ => NaN
  end.

Definition rdiv (rnd : R → R) (a b : xreal) : xreal :=
  match a, b with
  | Fin x, Fin y => if Req_dec_T y 0 then NaN else Fin (rnd (x / y)%R)
  | _, _ => NaN
  end.

Definition rsqrt (rnd : R → R) (a : xreal) : xreal :=
  match a with
  | Fin x => if Rlt_dec x 0 then NaN else Fin (rnd (sqrt x))
  | NaN => NaN
  end.

Definition rdec (rnd : R → R) (m : Z) (k : nat) : xreal :=
  match k with
  | O => Fin (IZR m)
  | S _ => Fin (rnd (IZR m / 10 ^ k)%R)
  end.

Definition rounded_number (rnd : R → R) : JsNumber xreal := {|
  nadd := rlift2 rnd Rplus;
  nsub := rlift2 rnd Rminus;
  nmul := rlift2 rnd Rmult;
  ndiv := rdiv rnd;
  nneg := xneg;
  nsqrt := rsqrt rnd;
  nmin := xlift2 Rmin;
  nmax := xlift2 Rmax;
  nis_zero := xis_zero;
  ntruthy := xtruthy;
  nNaN := NaN;
  ndec := rdec rnd;
|}.

(** A rounding with a relative error of at most [u]. *)
Definition rounding (rnd : R → R) (u : R) : Prop :=
  (0 <= u < 1)%R ∧ ∀ x, (Rabs (rnd x - x) <= u * Rabs x)%R.

(** *** Binary64 *)

(** [Math.max]: NaN when an argument is NaN, and [+0] above [-0]. *)
Definition fmax (a b : float) : float :=
  if is_nan a || is_nan b then nan
  else if (a <? b)%float then b
  else if (b <? a)%float then a
  else if get_sign a then b else a.

(** [Math.min]: NaN when an argument is NaN, and [-0] below [+0]. *)
Definition fmin (a b : float) : float :=
  if is_nan a || is_nan b then nan
  else if (a <? b)%float then a
  else if (b <? a)%float then b
  else if get_sign a then a else b.

Definition fofZ (m : Z) : float :=
  match m with
  | Zneg p => (- of_uint63 (Uint63.of_Z (Zpos p)))%float
  | _ => of_uint63 (Uint63.of_Z m)
  end.

(** A decimal literal with few digits is the quotient of two integers that
    binary64 holds exactly, and the division rounds to nearest, as the
    reading of the literal does. *)
Definition fdec (m : Z) (k : nat) : float :=
  (fofZ m / fofZ (10 ^ Z.of_nat k))%float.

#[export] Instance float_number : JsNumber float := {|
  nadd := PrimFloat.add;
  nsub := PrimFloat.sub;
  nmul := PrimFloat.mul;
  ndiv := PrimFloat.div;
  nneg := PrimFloat.opp;
  nsqrt := PrimFloat.sqrt;
  nmin := fmin;
  nmax := fmax;
  nis_zero := λ a, (a =? 0)%float;
  ntruthy := λ a, negb (is_nan a || (a =? 0)%float);
  nNaN := nan;
  ndec := fdec;
|}.

(** ** The engine *)

Section Engine.
Context {N : Type} `{JsNumber N}.
Local Open Scope js_scope.

(** *** 4. Vector helpers (3D) *)

(** An array of three numbers, [v[0]], [v[1]] and [v[2]]. *)
Record vec3 : Type := Vec3 { v0 : N; v1 : N; v2 : N }.

Definition add (a b : vec3) : vec3 :=
  Vec3 (v0 a + v0 b) (v1 a + v1 b) (v2 a + v2 b).

Definition sub (a b : vec3) : vec3 :=
  Vec3 (v0 a - v0 b) (v1 a - v1 b) (v2 a - v2 b).

Definition mulScalar (v : vec3) (s : N) : vec3 :=
  Vec3 (v0 v * s) (v1 v * s) (v2 v * s).

Definition length (v : vec3) : N :=
  nsqrt (v0 v * v0 v + v1 v * v1 v + v2 v * v2 v).

Definition clampLength (v : vec3) (minLen maxLen : N) : vec3 :=
  let len := length v in
  if nis_zero len then v
  else
    let clamped := nmin (nmax len minLen) maxLen in
    let scale := clamped / len in
    mulScalar v scale.

Definition normalizeSafe (v : vec3) : vec3 :=
  let len := length v in
  if nis_zero len then Vec3 (ndec 0 0) (ndec 0 0) (ndec 0 0)
  else Vec3 (v0 v / len) (v1 v / len) (v2 v / len).

Definition mixVec (a b : vec3) (t : N) : vec3 :=
  let s := ndec 1 0 - t in
  Vec3 (v0 a * s + v0 b * t) (v1 a * s + v1 b * t) (v2 a * s + v2 b * t).

Definition clamp01 (x : N) : N :=
  nmin (ndec 1 0) (nmax (ndec 0 0) x).

(** *** Objects and the store *)

(** A property of a weather state holds a number or an array of three
    numbers; an absent property reads as [undefined]. *)
Inductive value : Type :=
  | VNum (x : N)
  | VVec (v : vec3).

(** [ToNumber]: [undefined] and an array of three elements give NaN. *)
Definition to_number (o : option value) : N :=
  match o with
  | Some (VNum x) => x
  | Some (VVec _) => nNaN
  | None => nNaN
  end.

(** [o || [0, 0, 0]] read as an array.  An array is truthy.  Indexing a
    truthy number gives [undefined], which the arithmetic of the engine
    turns into NaN. *)
Definition or_zero_vec (o : option value) : vec3 :=
  match o with
  | Some (VVec v) => v
  | Some (VNum x) =>
      if ntruthy x then Vec3 nNaN nNaN nNaN
      else Vec3 (ndec 0 0) (ndec 0 0) (ndec 0 0)
  | None => Vec3 (ndec 0 0) (ndec 0 0) (ndec 0 0)
  end.

(** What a scene stores on a particle besides the fields of the engine
    ([isRain], [maxLife], a kind). *)
Inductive tag : Type :=
  | TagBool (b : bool)
  | TagNum (x : N)
  | TagStr (s : string).

(** [{ position: [x,y,z], velocity?: [x,y,z], life: 0~1 }] and the
    scene's own fields. *)
Record particle : Type := Particle {
  position : option vec3;
  velocity : option vec3;
  life : option N;
  tags : gmap string tag;
}.

Definition set_position (v : vec3) (q : particle) : particle :=
  {| position := Some v; velocity := velocity q; life := life q; tags := tags q |}.

Definition set_velocity (v : vec3) (q : particle) : particle :=
  {| position := position q; velocity := Some v; life := life q; tags := tags q |}.

Definition set_life (x : N) (q : particle) : particle :=
  {| position := position q; velocity := velocity q; life := Some x; tags := tags q |}.

Definition loc : Type := positive.

(** The objects of a scene: its particles and its weather states, each
    reached through a reference. *)
Record store : Type := Store {
  particles : gmap loc particle;
  states : gmap loc (gmap string value);
}.

(** A computation reads and writes the store; [None] is a [TypeError]
    (a property of [undefined] is read). *)
Definition M (A : Type) : Type := store → option (A * store).

#[export] Instance M_ret : MRet M := λ A a σ, Some (a, σ).

#[export] Instance M_bind : MBind M := λ A B k m σ,
  match m σ with
  | Some (a, σ') => k a σ'
  | None => None
  end.

Definition throw {A} : M A := λ _, None.

Definition getParticle (p : loc) : M particle := λ σ,
  match particles σ !! p with
  | Some q => Some (q, σ)
  | None => None
  end.

Definition setParticle (p : loc) (f : particle → particle) : M unit := λ σ,
  match particles σ !! p with
  | Some q => Some (tt, Store (<[p := f q]> (particles σ)) (states σ))
  | None => None
  end.

Definition getState (w : loc) : M (gmap string value) := λ σ,
  match states σ !! w with
  | Some o => Some (o, σ)
  | None => None
  end.

(** [o.key = v] for a name [key] of the weather state schema: the own
    property is written. *)
Definition setField (w : loc) (key : string) (v : value) : M unit := λ σ,
  match states σ !! w with
  | Some o => Some (tt, Store (particles σ) (<[w := <[key := v]> o]> (states σ)))
  | None => None
  end.

(** A new object, at a reference that no weather state of the store has. *)
Definition newState (o : gmap string value) : M loc := λ σ,
  let w := fresh (dom (states σ)) in
  Some (w, Store (particles σ) (<[w := o]> (states σ))).

(** The names of the properties of [Object.prototype], which an ordinary
    object inherits: eleven functions and the accessor [__proto__]. *)
Definition objectPrototype : list string :=
  ["constructor"; "__defineGetter__"; "__defineSetter__"; "hasOwnProperty";
   "__lookupGetter__"; "__lookupSetter__"; "isPrototypeOf";
   "propertyIsEnumerable"; "toString"; "valueOf"; "__proto__";
   "toLocaleString"].

(** What [o[key]] is, for an object [o] whose own properties hold numbers:
    the own property, or else the member of [Object.prototype] of that
    name (a function, and [Object.prototype] itself for [__proto__]), or
    else [undefined]. *)
Inductive property : Type :=
  | Own (x : N)
  | Inherited
  | Undefined.

Definition getProperty (o : gmap string N) (key : string) : property :=
  match o !! key with
  | Some x => Own x
  | None => if decide (key ∈ objectPrototype) then Inherited else Undefined
  end.

(** [ToNumber], which [Math.max(0, t)] applies to [t]: a function and
    [Object.prototype] give NaN. *)
Definition property_number (t : property) : N :=
  match t with
  | Own x => x
  | Inherited => nNaN
  | Undefined => nNaN
  end.

(** [o[key] = v] for a number [v].  The name [__proto__], when the object
    has no own property of that name, is the accessor of
    [Object.prototype], whose setter ignores a number: nothing is written. *)
Definition assignNumber (w : loc) (key : string) (x : N) : M unit := λ σ,
  match states σ !! w with
  | Some o =>
      if decide (key = "__proto__" ∧ o !! key = None) then Some (tt, σ)
      else Some (tt, Store (particles σ) (<[w := <[key := VNum x]> o]> (states σ)))
  | None => None
  end.

(** [a[0]], [a[1]], [a[2]]: the array, or a [TypeError] on [undefined]. *)
Definition index (a : option vec3) : M vec3 :=
  match a with
  | Some v => mret v
  | None => throw
  end.

(** [for (const key in o) body], each own key once. *)
Definition forIn {A} (o : gmap string A) (body : string → A → M unit) : M unit :=
  map_fold (λ key a acc, acc ;; body key a) (mret tt) o.

(** *** 1. weatherState schema *)

Definition defaultWeatherState : gmap string value :=
  <["deformFactor" := VNum (ndec 0 0)]> (
  <["shapeStrength" := VNum (ndec 1 0)]> (
  <["flowDirection" := VVec (Vec3 (ndec 0 0) (ndec 0 0) (ndec 0 0))]> (
  <["flowSpeed" := VNum (ndec 0 0)]> (
  <["turbulence" := VNum (ndec 0 0)]> (
  <["noiseScaleLarge" := VNum (ndec 1 0)]> (
  <["noiseScaleSmall" := VNum (ndec 1 0)]> (
  <["verticalBias" := VNum (ndec 0 0)]> (
  <["clusterStrength" := VNum (ndec 0 0)]> (
  <["spawnRate" := VNum (ndec 0 0)]> (
  <["lifeSpan" := VNum (ndec 1 0)]> (
  <["sizeMin" := VNum (ndec 1 0)]> (
  <["sizeMax" := VNum (ndec 1 0)]> (
  <["brightness" := VNum (ndec 1 0)]> (
  <["contrast" := VNum (ndec 1 0)]> (
  <["colorTemperature" := VNum (ndec 5 1)]> (
  <["softness" := VNum (ndec 5 1)]> (
  <["trailLength" := VNum (ndec 3 1)]> ∅))))))))))))))))).

Definition createDefaultWeatherState : M loc :=
  newState defaultWeatherState.

(** *** 2. applyMapping *)

(** [{ from: "cloudCover", min: x, max: y }] *)
Record rule : Type := Rule {
  cfg_from : string;
  cfg_min : N;
  cfg_max : N;
}.

Definition applyMapping (normalizedInputs : gmap string N)
    (mappingConfig : gmap string rule) (baseState : option loc) : M loc :=
  base ← match baseState with
         | Some b => mret b
         | None => createDefaultWeatherState
         end;
  o ← getState base;
  ws ← newState o;
  forIn mappingConfig (λ key cfg,
    let t := getProperty normalizedInputs (cfg_from cfg) in
    match t with
    | Undefined => mret tt
    | _ =>
        let clampedT := clamp01 (property_number t) in
        let v := cfg_min cfg + (cfg_max cfg - cfg_min cfg) * clampedT in
        assignNumber ws key v
    end);;
  mret ws.

(** *** 3. updateParticle: the shared flow field rule *)

(** The constant [v_shape]: the pull towards the base shape. *)
Definition v_shape (weatherState : gmap string value)
    (projectToShape : option (vec3 → vec3)) (pos : vec3) : vec3 :=
  let shapePos := match projectToShape with Some f => f pos | None => pos end in
  let dirShape := sub shapePos pos in
  let dirShapeNorm := normalizeSafe dirShape in
  let wShape := to_number (weatherState !! "shapeStrength")
                * (ndec 1 0 - clamp01 (to_number (weatherState !! "deformFactor"))) in
  mulScalar dirShapeNorm wShape.

(** The constant [v_large]: the large scale of the flow field. *)
Definition v_large (weatherState : gmap string value)
    (noiseFn : option (vec3 → N → vec3)) (pos : vec3) (t : N) : vec3 :=
  let posLarge := mulScalar pos (to_number (weatherState !! "noiseScaleLarge")) in
  let nLarge := match noiseFn with
                | Some f => f posLarge t
                | None => Vec3 (ndec 0 0) (ndec 0 0) (ndec 0 0)
                end in
  mulScalar (normalizeSafe nLarge) (to_number (weatherState !! "turbulence")).

(** The constant [v_small]: the small scale of the flow field. *)
Definition v_small (weatherState : gmap string value)
    (noiseFn : option (vec3 → N → vec3)) (pos : vec3) (t : N) : vec3 :=
  let posSmall := mulScalar pos (to_number (weatherState !! "noiseScaleSmall")) in
  let nSmall := match noiseFn with
                | Some f => f posSmall (t + ndec 100 0)
                | None => Vec3 (ndec 0 0) (ndec 0 0) (ndec 0 0)
                end in
  mulScalar (normalizeSafe nSmall)
            (to_number (weatherState !! "turbulence") * ndec 5 1).

(** The constant [v_direction]: the global drift. *)
Definition v_direction (weatherState : gmap string value) : vec3 :=
  let dir := normalizeSafe (or_zero_vec (weatherState !! "flowDirection")) in
  mulScalar dir (to_number (weatherState !! "flowSpeed")).

(** The constant [v_vertical]: the vertical bias of rain and snow. *)
Definition v_vertical (weatherState : gmap string value) : vec3 :=
  Vec3 (ndec 0 0) (- to_number (weatherState !! "verticalBias")) (ndec 0 0).

Definition updateParticle (p : loc) (dt : N) (weatherState : loc)
    (projectToShape : option (vec3 → vec3))
    (noiseFn : option (vec3 → N → vec3)) (time : option N) : M unit :=
  (* the fallbacks for a particle that was not initialised *)
  q ← getParticle p;
  (if position q is None
   then setParticle p (set_position (Vec3 (ndec 0 0) (ndec 0 0) (ndec 0 0)))
   else mret tt);;
  q ← getParticle p;
  (if velocity q is None
   then setParticle p (set_velocity (Vec3 (ndec 0 0) (ndec 0 0) (ndec 0 0)))
   else mret tt);;
  q ← getParticle p;
  (if life q is None then setParticle p (set_life (ndec 1 0)) else mret tt);;
  let t := match time with
           | Some t => if ntruthy t then t else ndec 0 0
           | None => ndec 0 0
           end in
  (* weatherState is read, never written: its properties are read here *)
  ws ← getState weatherState;
  q ← getParticle p;
  pos ← index (position q);
  (* v = v_shape + v_large + v_small + v_direction + v_vertical *)
  let v := add (v_shape ws projectToShape pos)
             (add (v_large ws noiseFn pos t)
                (add (v_small ws noiseFn pos t)
                   (add (v_direction ws) (v_vertical ws)))) in
  (* smoothing, smoothingFactor = 0.2 *)
  vel ← index (velocity q);
  let v := mixVec vel v (ndec 2 1) in
  (* speed limit *)
  let maxSpeed := ndec 5 0 in
  let v := clampLength v (ndec 0 0) maxSpeed in
  (* position and velocity *)
  setParticle p (set_position (add pos (mulScalar v dt)));;
  setParticle p (set_velocity v);;
  (* life cycle *)
  q ← getParticle p;
  setParticle p (set_life
    (to_number (VNum <$> life q)
     - dt / nmax (to_number (ws !! "lifeSpan")) (ndec 1 4))).

End Engine.

Arguments vec3 N : clear implicits.
Arguments Vec3 {N} _ _ _.
Arguments value N : clear implicits.
Arguments tag N : clear implicits.
Arguments particle N : clear implicits.
Arguments store N : clear implicits.
Arguments rule N : clear implicits.
Arguments property N : clear implicits.
Arguments Own {N} _.
Arguments Inherited {N}.
Arguments Undefined {N}.
Arguments M N A : clear implicits.
Arguments Particle {N} _ _ _ _.
Arguments Store {N} _ _.
Arguments Rule {N} _ _ _.

(** ** What one call computes *)

Section Outcome.
Context {N : Type} `{JsNumber N}.
Local Open Scope js_scope.

Definition zero3 : vec3 N := Vec3 (ndec 0 0) (ndec 0 0) (ndec 0 0).

(** [time || 0] *)
Definition timeOrZero (time : option N) : N :=
  match time with
  | Some t => if ntruthy t then t else ndec 0 0
  | None => ndec 0 0
  end.

(** The sum [v] of the five contributions, before the smoothing. *)
Definition targetVelocity (ws : gmap string (value N))
    (projectToShape : option (vec3 N → vec3 N))
    (noiseFn : option (vec3 N → N → vec3 N)) (time : option N)
    (pos : vec3 N) : vec3 N :=
  let t := timeOrZero time in
  add (v_shape ws projectToShape pos)
    (add (v_large ws noiseFn pos t)
       (add (v_small ws noiseFn pos t)
          (add (v_direction ws) (v_vertical ws)))).

(** The velocity [updateParticle] stores: smoothed, then limited. *)
Definition nextVelocity (ws : gmap string (value N))
    (projectToShape : option (vec3 N → vec3 N))
    (noiseFn : option (vec3 N → N → vec3 N)) (time : option N)
    (q : particle N) : vec3 N :=
  let pos := default zero3 (position q) in
  let vel := default zero3 (velocity q) in
  clampLength
    (mixVec vel (targetVelocity ws projectToShape noiseFn time pos) (ndec 2 1))
    (ndec 0 0) (ndec 5 0).

(** The particle [updateParticle] leaves behind. *)
Definition nextParticle (dt : N) (ws : gmap string (value N))
    (projectToShape : option (vec3 N → vec3 N))
    (noiseFn : option (vec3 N → N → vec3 N)) (time : option N)
    (q : particle N) : particle N :=
  let v := nextVelocity ws projectToShape noiseFn time q in
  {| position := Some (add (default zero3 (position q)) (mulScalar v dt));
     velocity := Some v;
     life := Some (default (ndec 1 0) (life q)
                   - dt / nmax (to_number (ws !! "lifeSpan")) (ndec 1 4));
     tags := tags q |}.

(** The value a rule gives its field, when its input is not [undefined]. *)
Definition mappedField (inputs : gmap string N) (cfg : rule N) : option (value N) :=
  match getProperty inputs (cfg_from cfg) with
  | Undefined => None
  | t => Some (VNum (cfg_min cfg
                     + (cfg_max cfg - cfg_min cfg) * clamp01 (property_number t)))
  end.

(** The object [applyMapping] returns, from the base object [o]: the
    values of the rules over the properties of [o]; the rule for the name
    [__proto__] writes nothing when [o] has no own property of that name. *)
Definition mappedState (inputs : gmap string N) (config : gmap string (rule N))
    (o : gmap string (value N)) : gmap string (value N) :=
  let written := omap (mappedField inputs) config in
  (if o !! "__proto__" is Some _ then written else delete "__proto__" written) ∪ o.

(** The object [baseState || createDefaultWeatherState()] stands for. *)
Definition baseObject (σ : store N) (baseState : option loc) : option (gmap string (value N)) :=
  match baseState with
  | Some b => states σ !! b
  | None => Some defaultWeatherState
  end.

(** [n] frames of a scene that calls [updateParticle] on one particle. *)
Fixpoint frames (n : nat) (p : loc) (dt : N) (weatherState : loc)
    (projectToShape : option (vec3 N → vec3 N))
    (noiseFn : option (vec3 N → N → vec3 N)) (time : option N) : M N unit :=
  match n with
  | O => mret tt
  | S n =>
      updateParticle p dt weatherState projectToShape noiseFn time;;
      frames n p dt weatherState projectToShape noiseFn time
  end.

(** The properties of a weather state that [updateParticle] reads. *)
Definition readFields : list string :=
  ["shapeStrength"; "deformFactor"; "noiseScaleLarge"; "noiseScaleSmall";
   "turbulence"; "flowDirection"; "flowSpeed"; "verticalBias"; "lifeSpan"].

End Outcome.

(** ** Finite inputs, in exact arithmetic *)

(** The array [[a, b, c]] of three real numbers. *)
Definition RV (a b c : R) : vec3 xreal := Vec3 (Fin a) (Fin b) (Fin c).

(** The Euclidean length of [[a, b, c]]. *)
Definition norm3 (a b c : R) : R := sqrt (a * a + b * b + c * c).

Definition fin_vec (v : vec3 xreal) : bool :=
  is_fin (v0 v) && is_fin (v1 v) && is_fin (v2 v).

(** A particle whose fields, where it has them, hold finite numbers. *)
Definition finite_particle (q : particle xreal) : bool :=
  match position q with Some v => fin_vec v | None => true end
  && match velocity q with Some v => fin_vec v | None => true end
  && match life q with Some l => is_fin l | None => true end.

(** A weather state whose properties read by [updateParticle] are finite
    numbers, and whose [flowDirection] is absent or finite. *)
Definition finite_state (ws : gmap string (value xreal)) : bool :=
  is_fin (to_number (ws !! "shapeStrength"))
  && is_fin (to_number (ws !! "deformFactor"))
  && is_fin (to_number (ws !! "noiseScaleLarge"))
  && is_fin (to_number (ws !! "noiseScaleSmall"))
  && is_fin (to_number (ws !! "turbulence"))
  && fin_vec (or_zero_vec (ws !! "flowDirection"))
  && is_fin (to_number (ws !! "flowSpeed"))
  && is_fin (to_number (ws !! "verticalBias"))
  && is_fin (to_number (ws !! "lifeSpan")).

Definition finite_time (time : option xreal) : bool :=
  match time with Some t => is_fin t | None => true end.

(** A projector, when there is one, sends finite positions to finite ones. *)
Definition finite_projector (projectToShape : option (vec3 xreal → vec3 xreal)) : Prop :=
  ∀ f, projectToShape = Some f → ∀ pos, fin_vec pos = true → fin_vec (f pos) = true.

(** A noise field, when there is one, is finite on finite arguments. *)
Definition finite_noise (noiseFn : option (vec3 xreal → xreal → vec3 xreal)) : Prop :=
  ∀ f, noiseFn = Some f →
  ∀ pos t, fin_vec pos = true → is_fin t = true → fin_vec (f pos t) = true.

(** The identity projector: no projector, or one that returns its argument. *)
Definition identity_projector {N} (projectToShape : option (vec3 N → vec3 N)) : Prop :=
  ∀ f, projectToShape = Some f → ∀ pos, f pos = pos.

(** ** Binary64 values *)

(** [x] and [y] are the same number: the same binary64 value, or two
    zeros, which differ at most by their sign. *)
Definition same_number (x y : float) : Prop :=
  x = y ∨ (is_zero x = true ∧ is_zero y = true).

(** A zero of either sign, or NaN. *)
Definition zero_or_nan (x : float) : bool := is_zero x || is_nan x.

(** A vector of three finite numbers: neither NaN nor an infinity. *)
Definition finite_vec64 (v : vec3 float) : bool :=
  is_finite (v0 v) && is_finite (v1 v) && is_finite (v2 v).

(** A vector without a NaN. *)
Definition nan_free (v : vec3 float) : bool :=
  negb (is_nan (v0 v) || is_nan (v1 v) || is_nan (v2 v)).

(** ** Scenes to run *)

Section Scenes.
Context {N : Type} `{JsNumber N}.

(** A particle at the origin, at rest, with a full life. *)
Definition restingParticle : particle N :=
  Particle (Some zero3) (Some zero3) (Some (ndec 1 0)) ∅.

(** One particle and one weather state, each at reference 1. *)
Definition scene (q : particle N) (ws : gmap string (value N)) : store N :=
  Store {[ 1%positive := q ]} {[ 1%positive := ws ]}.

(** The particle at [p] after a computation, if it did not fail. *)
Definition particleAfter (p : loc) (m : M N unit) (σ : store N) : option (particle N) :=
  match m σ with
  | Some (_, σ') => particles σ' !! p
  | None => None
  end.

(** The store in which the weather state at [w] is [ws]. *)
Definition withState (σ : store N) (w : loc) (ws : gmap string (value N)) : store N :=
  Store (particles σ) (<[w := ws]> (states σ)).

(** The default state with [verticalBias = 10]. *)
Definition rainState : gmap string (value N) :=
  <["verticalBias" := VNum (ndec 10 0)]> defaultWeatherState.

(** The default state with [lifeSpan = 2]. *)
Definition slowState : gmap string (value N) :=
  <["lifeSpan" := VNum (ndec 2 0)]> defaultWeatherState.

(** The default state with [deformFactor = 1] and [shapeStrength = 7]. *)
Definition meltedState : gmap string (value N) :=
  <["deformFactor" := VNum (ndec 1 0)]>
    (<["shapeStrength" := VNum (ndec 7 0)]> defaultWeatherState).

(** A particle of the rain scene, at the origin, moving along x at speed 3. *)
Definition driftingParticle : particle N :=
  Particle (Some zero3) (Some (Vec3 (ndec 3 0) (ndec 0 0) (ndec 0 0)))
    (Some (ndec 1 0)) {[ "isRain" := TagBool true ]}.

(** A particle at the origin with the velocity [0, 3, 6]. *)
Definition fallingParticle : particle N :=
  Particle (Some zero3) (Some (Vec3 (ndec 0 0) (ndec 3 0) (ndec 6 0)))
    (Some (ndec 1 0)) ∅.

(** The default state with [verticalBias = 30]. *)
Definition stormState : gmap string (value N) :=
  <["verticalBias" := VNum (ndec 30 0)]> defaultWeatherState.

(** [RAINY_MAPPING], the mapping config of the rain scene. *)
Definition RAINY_MAPPING : gmap string (rule N) :=
  <["shapeStrength" := Rule "precipitation" (ndec 3 0) (ndec 5 1)]> (
  <["turbulence" := Rule "precipitation" (ndec 1 1) (ndec 1 0)]> (
  <["verticalBias" := Rule "precipitation" (ndec 10 0) (ndec 40 0)]> (
  <["deformFactor" := Rule "humidity" (ndec 0 0) (ndec 1 0)]> (
  <["trailLength" := Rule "precipitation" (ndec 1 1) (ndec 5 1)]> (
  <["sizeMin" := Rule "humidity" (ndec 3 1) (ndec 5 1)]> (
  <["lifeSpan" := Rule "precipitation" (ndec 12 0) (ndec 13 0)]> ∅)))))).

(** Inputs with a precipitation above 1 and no humidity. *)
Definition stormInputs : gmap string N := {[ "precipitation" := ndec 2 0 ]}.

(** A particle at the origin with the velocity [1, 1, 1]. *)
Definition diagonalParticle : particle N :=
  Particle (Some zero3) (Some (Vec3 (ndec 1 0) (ndec 1 0) (ndec 1 0)))
    (Some (ndec 1 0)) ∅.

(** A mapping config whose rule reads a name that every object inherits,
    and one whose rule is for the field name [__proto__]. *)
Definition constructorConfig : gmap string (rule N) :=
  {[ "brightness" := Rule "constructor" (ndec 0 0) (ndec 1 0) ]}.

Definition protoConfig : gmap string (rule N) :=
  {[ "__proto__" := Rule "precipitation" (ndec 0 0) (ndec 1 0) ]}.

(** A projector that pulls along x, and a noise field that points along y. *)
Definition eastProjector : vec3 N → vec3 N :=
  λ pos, Vec3 (nadd (v0 pos) (ndec 1 0)) (v1 pos) (v2 pos).

Definition northNoise : vec3 N → N → vec3 N :=
  λ _ _, Vec3 (ndec 0 0) (ndec 1 0) (ndec 0 0).

End Scenes.

(** ** Choosing the scene (the weather API part of src/sunny.js, src/main.js) *)

(** [toLowerCase], on the letters A to Z: the texts of conditions.json are
    English, and no other character lowers to a letter of the words that
    are looked for below. *)
Definition lowerChar (c : Ascii.ascii) : Ascii.ascii :=
  let n := Ascii.nat_of_ascii c in
  if (65 <=? n)%nat && (n <=? 90)%nat then Ascii.ascii_of_nat (n + 32) else c.

Fixpoint toLowerCase (s : string) : string :=
  match s with
  | EmptyString => EmptyString
  | String c r => String (lowerChar c) (toLowerCase r)
  end.

(** [s.includes(word)] *)
Fixpoint includes (word s : string) : bool :=
  String.prefix word s
  || match s with
     | EmptyString => false
     | String _ r => includes word r
     end.

(** [word] occurs in [s]: what [includes] decides. *)
Definition occurs (word s : string) : Prop := ∃ a b, s = a +:+ word +:+ b.

(** [/w1|w2|.../.test(s)]: one of the words occurs in [s]. *)
Definition test (words : list string) (s : string) : bool :=
  existsb (λ word, includes word s) words.

(** [s || d] on strings: the empty string and [undefined] are falsy. *)
Definition strOr (o : option string) (d : string) : string :=
  match o with
  | Some s => if decide (s = "") then d else s
  | None => d
  end.

(** [{code, day, night, icon}], an entry of conditions.json. *)
Record condition : Type := Condition {
  cond_code : option Z;
  cond_day : option string;
  cond_night : option string;
}.

Definition snowWords : list string := ["snow"; "sleet"; "blizzard"; "ice pellets"].
Definition rainWords : list string := ["rain"; "drizzle"; "shower"; "thunder"].
Definition cloudWords : list string := ["cloud"; "overcast"; "fog"; "mist"; "haze"].

(** The text that the body of the loop of [buildCodeCategoryMap] tests. *)
Definition conditionText (it : condition) : string :=
  toLowerCase (strOr (cond_day it) "") +:+ " " +:+ toLowerCase (strOr (cond_night it) "").

(** The category [cat] that the body of the loop gives an entry. *)
Definition categoryOf (it : condition) : string :=
  let txt := conditionText it in
  if test snowWords txt then "SNOW"
  else if test rainWords txt then "RAIN"
  else if test cloudWords txt then "CLOUDY"
  else if decide (cond_code it = Some 1000%Z) then "SUNNY"
  else if decide (cond_code it = Some 1087%Z) then "WINDY"
  else "CLOUDY".

(** [map.set(code, cat)] for each entry, in order. *)
Definition buildCodeCategoryMap (list : list condition) : gmap (option Z) string :=
  foldl (λ map it, <[cond_code it := categoryOf it]> map) ∅ list.

(** What [classifyCategory] reads of the weather data:
    [data?.current?.condition?.code] and [data?.current?.condition?.text]. *)
Record weather : Type := Weather {
  weather_code : option Z;
  weather_text : option string;
}.

(** [{ category, code, text }] *)
Record classification : Type := Classification {
  category : string;
  code : option Z;
  text : string;
}.

(** [classifyCategory]; [conditions] is what [loadConditionsList] resolves
    to, [None] when it rejects, and then so does [classifyCategory]. *)
Definition classifyCategory (conditions : option (list condition)) (data : weather)
    : option classification :=
  list ← conditions;
  let codeMap := buildCodeCategoryMap list in
  let code := weather_code data in
  let text := strOr (weather_text data) "" in
  let category := strOr (codeMap !! code) "CLOUDY" in
  Some (Classification category code text).

(** [decideModeFromWeather]; [weatherData] is [None] for [null]. *)
Definition decideModeFromWeather (conditions : option (list condition))
    (weatherData : option weather) : string :=
  match weatherData with
  | None => "cloudy"
  | Some data =>
      match classifyCategory conditions data with
      | Some c =>
          if decide (category c = "SNOW") then "snowy"
          else if decide (category c = "RAIN") then "rainy"
          else if decide (category c = "SUNNY") then "sunny"
          else if decide (category c = "WINDY") then "cloudy"
          else "cloudy"
      | None => "cloudy"
      end
  end.

(** [loadWeatherModule]: the module that is imported. *)
Definition loadWeatherModule (mode : string) : string :=
  if decide (mode = "sunny") then "./sunny.js"
  else if decide (mode = "rainy") then "./rainy.js"
  else if decide (mode = "snowy") then "./snowy.js"
  else "./cloudy.js".

(** Entries of conditions.json. *)
Definition thunderyOutbreaks : condition :=
  Condition (Some 1087%Z) (Some "Thundery outbreaks possible")
    (Some "Thundery outbreaks possible").

Definition sunnyClear : condition :=
  Condition (Some 1000%Z) (Some "Sunny") (Some "Clear").

Definition partlyCloudy : condition :=
  Condition (Some 1003%Z) (Some "Partly cloudy") (Some "Partly cloudy").

Definition blowingSnow : condition :=
  Condition (Some 1114%Z) (Some "Blowing snow") (Some "Blowing snow").

Definition gusts : condition :=
  Condition (Some 1087%Z) (Some "Strong gusts") None.

(** ** Particles between frames *)

Section Between_frames.
Context {N : Type} `{JsNumber N}.

(** The particle that the fallbacks of [updateParticle] make of [q]. *)
Definition initialised (q : particle N) : particle N :=
  Particle (Some (default zero3 (position q))) (Some (default zero3 (velocity q)))
    (Some (default (ndec 1 0) (life q))) (tags q).

(** The store in which the particle at [p] is [q]. *)
Definition withParticle (σ : store N) (p : loc) (q : particle N) : store N :=
  Store (<[p := q]> (particles σ)) (states σ).

(** A particle with no field of the engine, as [{ isRain: true }]. *)
Definition bareParticle : particle N :=
  Particle None None None {[ "isRain" := TagBool true ]}.

(** The default state with the wind [flowDirection = [3, 0, 4]] at
    [flowSpeed = 2]. *)
Definition windyState : gmap string (value N) :=
  <["flowDirection" := VVec (Vec3 (ndec 3 0) (ndec 0 0) (ndec 4 0))]>
    (<["flowSpeed" := VNum (ndec 2 0)]> defaultWeatherState).

(** The default state with [verticalBias = 3]. *)
Definition drizzleState : gmap string (value N) :=
  <["verticalBias" := VNum (ndec 3 0)]> defaultWeatherState.

(** Two particles and one weather state. *)
Definition twoParticles : store N :=
  Store (<[1%positive := restingParticle]> {[ 2%positive := driftingParticle ]})
        {[ 1%positive := rainState ]}.

End Between_frames.


(** ** Scenes at the end of the binary64 range *)

(** The wind [flowDirection = [0, -1, 0]] at [flowSpeed = 2^1023], with
    [verticalBias = 2^1023]: finite numbers whose sum is not. *)
Definition galeState : gmap string (value float) :=
  <["flowDirection" := VVec (Vec3 0%float (-1)%float 0%float)]>
    (<["flowSpeed" := VNum 0x1p1023%float]>
       (<["verticalBias" := VNum 0x1p1023%float]> defaultWeatherState)).

(** A projector onto the point [[2^1023, 0, 0]], and the position
    [[-2^1023, 0, 0]]: their difference is not a finite binary64 number. *)
Definition farProjector : vec3 float → vec3 float :=
  λ _, Vec3 0x1p1023%float 0%float 0%float.

Definition farPosition : vec3 float :=
  Vec3 (-0x1p1023)%float 0%float 0%float.

(** The default state with [deformFactor = 1] and an infinite
    [shapeStrength]. *)
Definition rigidState : gmap string (value float) :=
  <["deformFactor" := VNum 1%float]>
    (<["shapeStrength" := VNum infinity]> defaultWeatherState).

(** The default state with [lifeSpan = 0]. *)
Definition instantState : gmap string (value float) :=
  <["lifeSpan" := VNum 0%float]> defaultWeatherState.

(** A rounding that is not the identity: every result is too large by
    one thousandth. *)
Definition inflate (x : R) : R := (x * (1001 / 1000))%R.

(** * Properties *)

(** ** The two functions, run *)

Section Runs.
Context {N : Type} `{JsNumber N}.
Local Open Scope js_scope.

Lemma updateParticle_run (σ : store N) p q w ws dt projectToShape noiseFn time :
  particles σ !! p = Some q →
  states σ !! w = Some ws →
  updateParticle p dt w projectToShape noiseFn time σ
  = Some (tt, Store (<[p := nextParticle dt ws projectToShape noiseFn time q]> (particles σ))
                    (states σ)).
Proof.
  intros Hp Hw. destruct σ as [ps ss]. simpl in *.
  unfold updateParticle, mbind, M_bind, mret, M_ret, getParticle, setParticle, getState, index.
  destruct q as [[pos|] [vel|] [l|] tg];
    repeat (progress (simpl; rewrite ?Hp, ?Hw, ?lookup_insert_eq));
    rewrite ?insert_insert_eq; reflexivity.
Qed.

Lemma mappedState_lookup (inputs : gmap string N) (config : gmap string (rule N))
    (o : gmap string (value N)) (key : string) :
  mappedState inputs config o !! key
  = match config !! key with
    | Some cfg =>
        if decide (key = "__proto__" ∧ o !! key = None) then o !! key
        else match mappedField inputs cfg with
             | Some v => Some v
             | None => o !! key
             end
    | None => o !! key
    end.
Proof.
  unfold mappedState.
  destruct (o !! "__proto__") as [x|] eqn:Hproto.
  - rewrite lookup_union, lookup_omap.
    destruct (config !! key) as [cfg|]; simpl; [|by destruct (o !! key)].
    rewrite decide_False by (intros [-> ?]; congruence).
    destruct (mappedField inputs cfg); simpl; by destruct (o !! key).
  - rewrite lookup_union. destruct (decide (key = "__proto__")) as [->|Hne].
    + rewrite lookup_delete_eq, Hproto. destruct (config !! "__proto__"); [|done].
      by rewrite decide_True.
    + rewrite lookup_delete_ne, lookup_omap by done.
      destruct (config !! key) as [cfg|]; simpl; [|by destruct (o !! key)].
      rewrite decide_False by (by intros [? ?]).
      destruct (mappedField inputs cfg); simpl; by destruct (o !! key).
Qed.

Lemma forIn_run (inputs : gmap string N) (config : gmap string (rule N)) (w : loc) :
  ∀ (σ : store N) o, states σ !! w = Some o →
  forIn config (λ key cfg,
    match getProperty inputs (cfg_from cfg) with
    | Undefined => mret tt
    | _ =>
        assignNumber w key
          (cfg_min cfg + (cfg_max cfg - cfg_min cfg)
                         * clamp01 (property_number (getProperty inputs (cfg_from cfg))))
    end) σ
  = Some (tt, Store (particles σ) (<[w := mappedState inputs config o]> (states σ))).
Proof.
  induction config as [|key cfg m Hm Hfirst IH] using map_first_key_ind; intros σ o Hw.
  - unfold forIn. rewrite map_fold_empty.
    replace (mappedState inputs ∅ o) with o.
    + rewrite insert_id by done. by destruct σ.
    + apply map_eq. intros k. by rewrite mappedState_lookup, lookup_empty.
  - unfold forIn. rewrite map_fold_insert_first_key by done.
    fold (forIn m (λ key cfg,
      match getProperty inputs (cfg_from cfg) with
      | Undefined => mret tt
      | _ =>
          assignNumber w key
            (cfg_min cfg + (cfg_max cfg - cfg_min cfg)
                           * clamp01 (property_number (getProperty inputs (cfg_from cfg))))
      end)).
    unfold mbind, M_bind. rewrite (IH σ o Hw).
    assert (Hkey : mappedState inputs m o !! key = o !! key)
      by (by rewrite mappedState_lookup, Hm).
    assert (Hstep : ∀ o', (∀ k, o' !! k = mappedState inputs (<[key:=cfg]> m) o !! k) →
              Some (tt, Store (particles σ) (<[w := o']> (states σ)))
              = Some (tt, Store (particles σ)
                            (<[w := mappedState inputs (<[key:=cfg]> m) o]> (states σ)))).
    { intros o' Ho'. do 4 f_equal. by apply map_eq. }
    assert (Hskip : mappedField inputs cfg = None ∨
                    (key = "__proto__" ∧ o !! key = None) →
              ∀ k, mappedState inputs m o !! k
                   = mappedState inputs (<[key:=cfg]> m) o !! k).
    { intros Hcase k. rewrite !mappedState_lookup.
      destruct (decide (key = k)) as [<-|Hne]; [|by rewrite lookup_insert_ne].
      rewrite lookup_insert_eq, Hm. destruct Hcase as [->|Hp].
      - by case_decide.
      - by rewrite decide_True. }
    assert (Hwrite : ∀ x, mappedField inputs cfg = Some (VNum x) →
              ¬ (key = "__proto__" ∧ o !! key = None) →
              ∀ k, <[key := VNum x]> (mappedState inputs m o) !! k
                   = mappedState inputs (<[key:=cfg]> m) o !! k).
    { intros x Hx Hp k. rewrite (mappedState_lookup _ (<[key:=cfg]> m)).
      destruct (decide (key = k)) as [<-|Hne].
      - by rewrite !lookup_insert_eq, decide_False, Hx.
      - rewrite !lookup_insert_ne by done. by rewrite mappedState_lookup. }
    unfold mappedField in Hskip, Hwrite.
    destruct (getProperty inputs (cfg_from cfg)) as [t| |] eqn:Ht.
    + unfold assignNumber. cbn [states particles]. rewrite lookup_insert_eq, Hkey.
      case_decide as Hp.
      * rewrite <- (insert_id (states σ) w o) at 1 by done.
        rewrite insert_insert_eq. apply Hstep, Hskip. by right.
      * rewrite insert_insert_eq. by apply Hstep, Hwrite.
    + unfold assignNumber. cbn [states particles]. rewrite lookup_insert_eq, Hkey.
      case_decide as Hp.
      * rewrite <- (insert_id (states σ) w o) at 1 by done.
        rewrite insert_insert_eq. apply Hstep, Hskip. by right.
      * rewrite insert_insert_eq. by apply Hstep, Hwrite.
    + unfold mret, M_ret. apply Hstep, Hskip. by left.
Qed.

Lemma applyMapping_run (inputs : gmap string N) (config : gmap string (rule N))
    (baseState : option loc) (σ : store N) o :
  baseObject σ baseState = Some o →
  ∃ w σ',
    applyMapping inputs config baseState σ = Some (w, σ') ∧
    states σ !! w = None ∧
    particles σ' = particles σ ∧
    states σ' !! w = Some (mappedState inputs config o) ∧
    (∀ b, b ≠ w → is_Some (states σ !! b) → states σ' !! b = states σ !! b).
Proof.
  intros Ho. unfold applyMapping. destruct baseState as [b|]; simpl in Ho.
  - set (w := fresh (dom (states σ))).
    assert (Hw : states σ !! w = None).
    { apply not_elem_of_dom. apply is_fresh. }
    exists w, (Store (particles σ) (<[w := mappedState inputs config o]> (states σ))).
    split; [|split; [done|split; [done|split]]].
    + unfold mbind, M_bind, mret at 1, M_ret, getState. rewrite Ho.
      unfold newState. fold w. cbv zeta.
      erewrite forIn_run by (simpl; apply lookup_insert_eq).
      simpl. by rewrite insert_insert_eq.
    + simpl. apply lookup_insert_eq.
    + intros b' Hb' _. simpl. by rewrite lookup_insert_ne.
  - injection Ho as <-.
    set (d := fresh (dom (states σ))).
    set (ss := <[d := defaultWeatherState]> (states σ)).
    set (w := fresh (dom ss)).
    assert (Hd : states σ !! d = None).
    { apply not_elem_of_dom. apply is_fresh. }
    assert (Hw : ss !! w = None).
    { apply not_elem_of_dom. apply is_fresh. }
    assert (Hwd : w ≠ d).
    { intros ->. unfold ss in Hw. by rewrite lookup_insert_eq in Hw. }
    exists w, (Store (particles σ) (<[w := mappedState inputs config defaultWeatherState]> ss)).
    split; [|split; [|split; [done|split]]].
    + unfold mbind, M_bind, createDefaultWeatherState, newState at 1, getState.
      fold d. simpl. fold ss.
      assert (Hsd : ss !! d = Some defaultWeatherState) by apply lookup_insert_eq.
      rewrite Hsd. simpl. fold w.
      erewrite forIn_run by (simpl; apply lookup_insert_eq).
      simpl. by rewrite insert_insert_eq.
    + unfold ss in Hw. by rewrite lookup_insert_ne in Hw.
    + simpl. apply lookup_insert_eq.
    + intros b' Hb' [x Hx]. simpl. rewrite lookup_insert_ne by done.
      unfold ss. rewrite lookup_insert_ne; [done|]. intros <-. congruence.
Qed.

Lemma particleAfter_run (σ : store N) p q w ws dt projectToShape noiseFn time :
  particles σ !! p = Some q →
  states σ !! w = Some ws →
  particleAfter p (updateParticle p dt w projectToShape noiseFn time) σ
  = Some (nextParticle dt ws projectToShape noiseFn time q).
Proof.
  intros Hp Hw. unfold particleAfter.
  rewrite (updateParticle_run σ p q w ws) by done. simpl. apply lookup_insert_eq.
Qed.

(** The contributions read nine properties of the weather state. *)
Lemma nextParticle_ext dt (ws ws' : gmap string (value N)) projectToShape noiseFn time q :
  (∀ k, k ∈ readFields → k ≠ "flowDirection" → ws' !! k = ws !! k) →
  or_zero_vec (ws' !! "flowDirection") = or_zero_vec (ws !! "flowDirection") →
  nextParticle dt ws' projectToShape noiseFn time q
  = nextParticle dt ws projectToShape noiseFn time q.
Proof.
  intros E E6.
  assert (E1 : ws' !! "shapeStrength" = ws !! "shapeStrength")
    by (apply E; [unfold readFields; set_solver|done]).
  assert (E2 : ws' !! "deformFactor" = ws !! "deformFactor")
    by (apply E; [unfold readFields; set_solver|done]).
  assert (E3 : ws' !! "noiseScaleLarge" = ws !! "noiseScaleLarge")
    by (apply E; [unfold readFields; set_solver|done]).
  assert (E4 : ws' !! "noiseScaleSmall" = ws !! "noiseScaleSmall")
    by (apply E; [unfold readFields; set_solver|done]).
  assert (E5 : ws' !! "turbulence" = ws !! "turbulence")
    by (apply E; [unfold readFields; set_solver|done]).
  assert (E7 : ws' !! "flowSpeed" = ws !! "flowSpeed")
    by (apply E; [unfold readFields; set_solver|done]).
  assert (E8 : ws' !! "verticalBias" = ws !! "verticalBias")
    by (apply E; [unfold readFields; set_solver|done]).
  assert (E9 : ws' !! "lifeSpan" = ws !! "lifeSpan")
    by (apply E; [unfold readFields; set_solver|done]).
  unfold nextParticle, nextVelocity, targetVelocity, v_shape, v_large, v_small,
    v_direction, v_vertical.
  by rewrite E1, E2, E3, E4, E5, E6, E7, E8, E9.
Qed.

(** Field by field, the object that [applyMapping] returns. *)
Lemma applyMapping_lookup (inputs : gmap string N) (config : gmap string (rule N))
    (baseState : option loc) (σ : store N) (o : gmap string (value N)) :
  baseObject σ baseState = Some o →
  ∃ w σ' o',
    applyMapping inputs config baseState σ = Some (w, σ') ∧
    states σ' !! w = Some o' ∧
    (∀ key cfg t, config !! key = Some cfg → inputs !! cfg_from cfg = Some t →
       key ≠ "__proto__" ∨ is_Some (o !! key) →
       o' !! key = Some (VNum (cfg_min cfg + (cfg_max cfg - cfg_min cfg) * clamp01 t))) ∧
    (∀ key cfg, config !! key = Some cfg → inputs !! cfg_from cfg = None →
       cfg_from cfg ∉ objectPrototype → o' !! key = o !! key) ∧
    (∀ key cfg, config !! key = Some cfg → inputs !! cfg_from cfg = None →
       cfg_from cfg ∈ objectPrototype →
       key ≠ "__proto__" ∨ is_Some (o !! key) →
       o' !! key
       = Some (VNum (cfg_min cfg + (cfg_max cfg - cfg_min cfg) * clamp01 nNaN))) ∧
    (o !! "__proto__" = None → o' !! "__proto__" = None) ∧
    (∀ key, config !! key = None → o' !! key = o !! key) ∧
    (config = ∅ → o' = o) ∧
    (baseState = None → o = defaultWeatherState).
Proof.
  intros Ho.
  destruct (applyMapping_run inputs config baseState σ o Ho)
    as (w & σ' & Hrun & _ & _ & Hw & _).
  exists w, σ', (mappedState inputs config o).
  split; [done|]. split; [done|].
  assert (Hwritable : ∀ key, key ≠ "__proto__" ∨ is_Some (o !! key) →
            ¬ (key = "__proto__" ∧ o !! key = None)).
  { intros key [Hk|[x Hx]] [Hp Hn]; congruence. }
  repeat split.
  - intros key cfg t Hc Hi Hk. rewrite mappedState_lookup, Hc.
    rewrite decide_False by auto. unfold mappedField, getProperty. rewrite Hi.
    reflexivity.
  - intros key cfg Hc Hi Hf. rewrite mappedState_lookup, Hc.
    unfold mappedField, getProperty. rewrite Hi.
    destruct (decide (cfg_from cfg ∈ objectPrototype)); [done|]. by case_decide.
  - intros key cfg Hc Hi Hf Hk. rewrite mappedState_lookup, Hc.
    rewrite decide_False by auto. unfold mappedField, getProperty.
    rewrite Hi. destruct (decide (cfg_from cfg ∈ objectPrototype)); [|done].
    reflexivity.
  - intros Hp. rewrite mappedState_lookup.
    destruct (config !! "__proto__"); [|done]. by rewrite decide_True.
  - intros key Hc. by rewrite mappedState_lookup, Hc.
  - intros ->. apply map_eq. intros k. by rewrite mappedState_lookup, lookup_empty.
  - intros ->. simpl in Ho. congruence.
Qed.

(** C5: applyMapping leaves the baseline as it was: the state it returns
    is a new object, at a reference the store did not have, that holds the
    properties of the baseline with the mapped ones written over them; the
    baseline and every other object read after the call as before it. *)
Theorem applyMapping_keeps_baseline (inputs : gmap string N)
    (config : gmap string (rule N)) (b : loc) (σ : store N)
    (o : gmap string (value N)) :
  states σ !! b = Some o →
  ∃ w σ',
    applyMapping inputs config (Some b) σ = Some (w, σ') ∧
    w ≠ b ∧ states σ !! w = None ∧
    states σ' !! w = Some (mappedState inputs config o) ∧
    states σ' !! b = Some o ∧
    (∀ b', is_Some (states σ !! b') → states σ' !! b' = states σ !! b') ∧
    particles σ' = particles σ.
Proof.
  intros Hb.
  destruct (applyMapping_run inputs config (Some b) σ o Hb)
    as (w & σ' & Hrun & Hfresh & Hps & Hnew & Hother).
  assert (Hwb : b ≠ w) by congruence.
  exists w, σ'. split; [done|]. split; [done|]. split; [done|]. split; [done|].
  split; [|split; [|done]].
  - rewrite Hother; eauto.
  - intros b' Hb'. apply Hother; [|done]. intros ->. rewrite Hfresh in Hb'.
    by destruct Hb'.
Qed.

(** C10: updateParticle writes the position, the velocity and the life of
    its particle, which all three are there after the call; the weather
    states, the other particles and the other fields of the particle are
    as they were. *)
Theorem updateParticle_frame (σ : store N) (p : loc) (q : particle N) (w : loc)
    (ws : gmap string (value N)) (dt : N) projectToShape noiseFn time :
  particles σ !! p = Some q →
  states σ !! w = Some ws →
  ∃ σ' q',
    updateParticle p dt w projectToShape noiseFn time σ = Some (tt, σ') ∧
    states σ' = states σ ∧
    (∀ p', p' ≠ p → particles σ' !! p' = particles σ !! p') ∧
    particles σ' !! p = Some q' ∧
    tags q' = tags q ∧
    is_Some (position q') ∧ is_Some (velocity q') ∧ is_Some (life q').
Proof.
  intros Hp Hw.
  eexists _, _. split; [by apply updateParticle_run|]. simpl.
  split; [done|]. split.
  { intros p' Hne. by rewrite lookup_insert_ne. }
  split; [apply lookup_insert_eq|]. simpl. eauto.
Qed.

(** C2, amended: updateParticle does not fail, whatever properties the
    weather state has; an absent flowDirection gives the particle that
    the default [0, 0, 0] gives; a property that updateParticle does not
    read can be absent or not. *)
Theorem updateParticle_absent_fields (σ : store N) (p : loc) (q : particle N)
    (w : loc) (ws : gmap string (value N)) (dt : N) projectToShape noiseFn time :
  particles σ !! p = Some q →
  states σ !! w = Some ws →
  is_Some (particleAfter p (updateParticle p dt w projectToShape noiseFn time) σ) ∧
  defaultWeatherState !! "flowDirection" = Some (VVec zero3) ∧
  (ws !! "flowDirection" = None →
   particleAfter p (updateParticle p dt w projectToShape noiseFn time) σ
   = particleAfter p (updateParticle p dt w projectToShape noiseFn time)
       (withState σ w (<["flowDirection" := VVec zero3]> ws))) ∧
  (∀ key, key ∉ readFields →
   particleAfter p (updateParticle p dt w projectToShape noiseFn time)
     (withState σ w (delete key ws))
   = particleAfter p (updateParticle p dt w projectToShape noiseFn time) σ).
Proof.
  intros Hp Hw. rewrite (particleAfter_run σ p q w ws) by done.
  split; [eauto|]. split; [done|]. split.
  - intros Hfd.
    rewrite (particleAfter_run _ p q w (<["flowDirection" := VVec zero3]> ws));
      [|done|apply lookup_insert_eq].
    f_equal. symmetry. apply nextParticle_ext.
    + intros k _ Hk. by apply lookup_insert_ne.
    + by rewrite lookup_insert_eq, Hfd.
  - intros key Hkey.
    rewrite (particleAfter_run _ p q w (delete key ws)); [|done|apply lookup_insert_eq].
    f_equal. apply nextParticle_ext.
    + intros k Hk _. apply lookup_delete_ne. by intros ->.
    + rewrite lookup_delete_ne; [done|]. intros ->. apply Hkey.
      unfold readFields. set_solver.
Qed.

End Runs.

(** ** Binary64 *)

(** What is proved of the binary64 numbers is proved from the specification
    of their operations, [SpecFloat], to which the primitive operations
    conform. *)

Section Binary64.
Local Open Scope float_scope.

Lemma SFcompare_refl x : SFcompare x x = match x with S754_nan => None | _ => Some Eq end.
Proof.
  destruct x as [s|s| |s m e]; simpl; [done|by destruct s|done|].
  destruct s; by rewrite Z.compare_refl, Pos.compare_cont_refl.
Qed.

Lemma is_nan_spec x : is_nan x = match Prim2SF x with S754_nan => true | _ => false end.
Proof.
  unfold is_nan. rewrite FloatAxioms.eqb_spec. unfold SFeqb. rewrite SFcompare_refl.
  by destruct (Prim2SF x).
Qed.

Lemma SFcompare_antisym x y :
  SFcompare y x = option_map CompOpp (SFcompare x y).
Proof.
  destruct x as [s|s| |s m e], y as [s'|s'| |s' m' e']; simpl; try done;
    try (by destruct s); try (by destruct s'); try (by destruct s, s').
  destruct s, s'; simpl; try done.
  - rewrite (Z.compare_antisym e e').
    destruct (e ?= e')%Z; simpl; try done.
    f_equal. by rewrite CompOpp_involutive, Pos.compare_cont_antisym.
  - rewrite (Z.compare_antisym e e').
    destruct (e ?= e')%Z; simpl; try done.
    f_equal. by rewrite Pos.compare_cont_antisym.
Qed.

Lemma SFcompare_Eq_finite s m e y :
  SFcompare (S754_finite s m e) y = Some Eq → y = S754_finite s m e.
Proof.
  destruct y as [s'|s'| |s' m' e']; simpl; try done; try (by destruct s).
  - by destruct s, s'.
  - destruct s, s'; try done; destruct (e ?= e')%Z eqn:He; try done;
      apply Z.compare_eq in He as ->; intros [= Hm].
    + apply (f_equal CompOpp) in Hm. rewrite CompOpp_involutive in Hm. simpl in Hm.
      by apply Pos.compare_eq in Hm as ->.
    + by apply Pos.compare_eq in Hm as ->.
Qed.

Lemma SFcompare_None x y :
  SFcompare x y = None → x = S754_nan ∨ y = S754_nan.
Proof.
  destruct x as [s|s| |s m e], y as [s'|s'| |s' m' e']; simpl; try done; auto.
Qed.

Lemma fleb_ltb x y :
  is_nan x = false → is_nan y = false → (x <=? y) = negb (y <? x).
Proof.
  rewrite !is_nan_spec, FloatAxioms.leb_spec, FloatAxioms.ltb_spec.
  unfold SFleb, SFltb. rewrite (SFcompare_antisym (Prim2SF x) (Prim2SF y)).
  intros Hx Hy.
  destruct (SFcompare (Prim2SF x) (Prim2SF y)) as [[]|] eqn:Hc; try done.
  apply SFcompare_None in Hc as [Hc|Hc]; rewrite Hc in *; done.
Qed.

Lemma fleb_not_ltb_eq x y :
  (x <=? y) = true → (x <? y) = false → is_zero x = false → x = y.
Proof.
  unfold is_zero.
  rewrite FloatAxioms.leb_spec, FloatAxioms.ltb_spec, FloatAxioms.eqb_spec.
  unfold SFleb, SFltb, SFeqb. change (Prim2SF zero) with (S754_zero false).
  destruct (SFcompare (Prim2SF x) (Prim2SF y)) as [[]|] eqn:Hc; try done.
  intros _ _ Hz. apply Prim2SF_inj.
  destruct (Prim2SF x) as [s|s| |s m e] eqn:Hx; try done.
  - destruct (Prim2SF y) as [s'|s'| |s' m' e'] eqn:Hy; simpl in Hc;
      try done; by destruct s, s'.
  - symmetry. by apply SFcompare_Eq_finite.
Qed.

Lemma fltb_not_nan_r x y : (x <? y) = true → is_nan y = false.
Proof.
  rewrite is_nan_spec, FloatAxioms.ltb_spec. unfold SFltb.
  destruct (SFcompare _ _) as [[]|] eqn:Hc; try done. intros _.
  destruct (Prim2SF y); try done. by destruct (Prim2SF x).
Qed.

Lemma fmax_0_l x :
  fmax 0 x = if is_nan x then nan else if (x <=? 0) then 0 else x.
Proof.
  unfold fmax. change (is_nan 0) with false. change (get_sign 0) with false.
  destruct (is_nan x) eqn:Hn; [done|]. simpl.
  rewrite (fleb_ltb x 0) by done.
  destruct (0 <? x); [done|]. simpl. by destruct (x <? 0).
Qed.

Lemma fmin_1_l y :
  fmin 1 y = if is_nan y then nan else if (1 <=? y) then 1 else y.
Proof.
  unfold fmin. change (is_nan 1) with false. change (get_sign 1) with false.
  destruct (is_nan y) eqn:Hn; [done|]. simpl.
  destruct (1 <? y) eqn:Hlt.
  - rewrite (fleb_ltb 1 y) by done.
    destruct (y <? 1) eqn:Hgt; [|done].
    exfalso. revert Hlt Hgt. rewrite !FloatAxioms.ltb_spec. unfold SFltb.
    rewrite (SFcompare_antisym (Prim2SF 1) (Prim2SF y)).
    by destruct (SFcompare (Prim2SF 1) (Prim2SF y)) as [[]|].
  - destruct (1 <=? y) eqn:Hle.
    + assert (1 = y) as <- by (by apply fleb_not_ltb_eq). by destruct (1 <? 1).
    + by destruct (y <? 1).
Qed.

Lemma clamp01_binary64 x :
  fmin 1 (fmax 0 x)
  = if is_nan x then nan
    else if (x <=? 0) then 0 else if (1 <=? x) then 1 else x.
Proof.
  rewrite fmin_1_l, fmax_0_l.
  destruct (is_nan x) eqn:Hn; [done|].
  destruct (x <=? 0) eqn:H0; [done|]. by rewrite Hn.
Qed.

Lemma fmax_floor (c L : float) :
  is_nan c = false → get_sign c = false → is_zero c = false →
  fmax L c = if is_nan L then nan else if (L <=? c) then c else L.
Proof.
  intros Hc Hs Hz. unfold fmax. rewrite Hc, orb_false_r.
  destruct (is_nan L) eqn:Hn; [done|].
  destruct (L <? c) eqn:Hlt.
  - rewrite (fleb_ltb L c) by done.
    destruct (c <? L) eqn:Hgt; [|done].
    exfalso. revert Hlt Hgt. rewrite !FloatAxioms.ltb_spec. unfold SFltb.
    rewrite (SFcompare_antisym (Prim2SF L) (Prim2SF c)).
    by destruct (SFcompare (Prim2SF L) (Prim2SF c)) as [[]|].
  - rewrite (fleb_ltb L c) by done. destruct (c <? L) eqn:Hgt; [done|]. simpl.
    assert (c = L) as <-.
    { apply fleb_not_ltb_eq; [|done|done]. rewrite fleb_ltb by done. by rewrite Hlt. }
    by rewrite Hs.
Qed.

(** Multiplying by a zero. *)
Lemma is_infinity_spec x :
  is_infinity x = match Prim2SF x with S754_infinity _ => true | _ => false end.
Proof.
  unfold is_infinity. rewrite FloatAxioms.eqb_spec, abs_spec.
  change (Prim2SF infinity) with (S754_infinity false).
  by destruct (Prim2SF x) as [s|s| |s m e].
Qed.

Lemma is_finite_spec x :
  is_finite x = match Prim2SF x with
                | S754_zero _ | S754_finite _ _ _ => true
                | _ => false
                end.
Proof.
  unfold is_finite. rewrite is_nan_spec, is_infinity_spec. by destruct (Prim2SF x).
Qed.

Lemma is_zero_spec x :
  is_zero x = match Prim2SF x with S754_zero _ => true | _ => false end.
Proof.
  unfold is_zero. rewrite FloatAxioms.eqb_spec.
  change (Prim2SF zero) with (S754_zero false).
  destruct (Prim2SF x) as [s|s| |s m e]; try done; by destruct s.
Qed.

Lemma fmul_zero_r x z :
  is_zero z = true →
  is_zero (x * z) = is_finite x ∧ is_nan (x * z) = negb (is_finite x).
Proof.
  rewrite !is_zero_spec, is_nan_spec, is_finite_spec, mul_spec.
  destruct (Prim2SF z) as [sz| | |]; try done. intros _.
  by destruct (Prim2SF x).
Qed.

Lemma fmul_zero_l z x :
  is_zero z = true →
  is_zero (z * x) = is_finite x ∧ is_nan (z * x) = negb (is_finite x).
Proof.
  rewrite !is_zero_spec, is_nan_spec, is_finite_spec, mul_spec.
  destruct (Prim2SF z) as [sz| | |]; try done. intros _.
  by destruct (Prim2SF x).
Qed.

Lemma fadd_zero_zero x y :
  is_zero x = true → is_zero y = true → is_zero (x + y) = true.
Proof.
  rewrite !is_zero_spec, add_spec.
  destruct (Prim2SF x) as [sx| | |], (Prim2SF y) as [sy| | |]; try done.
  by destruct sx, sy.
Qed.

Lemma fadd_zero_r x z :
  is_zero z = true → is_zero x = false → (x + z) = x.
Proof.
  rewrite !is_zero_spec. intros Hz Hx. apply Prim2SF_inj. rewrite add_spec.
  destruct (Prim2SF z) as [sz| | |]; try done.
  by destruct (Prim2SF x) as [sx|sx| |sx mx ex].
Qed.

Lemma fmul_nan_r x : (x * nan) = nan.
Proof.
  apply Prim2SF_inj. rewrite mul_spec. change (Prim2SF nan) with S754_nan.
  by destruct (Prim2SF x).
Qed.

Lemma fadd_nan_r x : (x + nan) = nan.
Proof.
  apply Prim2SF_inj. rewrite add_spec. change (Prim2SF nan) with S754_nan.
  by destruct (Prim2SF x).
Qed.

Lemma fsub_self x : is_finite x = true → (x - x) = 0.
Proof.
  rewrite is_finite_spec. intros Hx. apply Prim2SF_inj. rewrite sub_spec.
  change (Prim2SF 0) with (S754_zero false).
  destruct (Prim2SF x) as [s|s| |s m e]; try done.
  - by destruct s.
  - unfold SF64sub. cbn [SFsub]. rewrite Z.min_id. unfold shl_align.
    by rewrite Z.sub_diag.
Qed.

Lemma fmul_1_r x : (x * 1) = x.
Proof.
  apply Prim2SF_inj. rewrite mul_spec.
  change (Prim2SF 1) with (S754_finite false 4503599627370496 (-52)).
  pose proof (Prim2SF_valid x) as Hv.
  destruct (Prim2SF x) as [s|s| |s m e]; cbn [SF64mul SFmul]; rewrite ?xorb_false_r; try done.
  cbn [SpecFloat.valid_binary] in Hv. unfold bounded, canonical_mantissa in Hv.
  apply andb_true_iff in Hv as [Hc%Z.eqb_eq He].
  rewrite !Pos.mul_xO_r, Pos.mul_1_r.
  unfold binary_round_aux, shr_fexp.
  cbn [Zdigits2 digits2_pos shr_record_of_loc].
  set (d := digits2_pos m) in *.
  match goal with
  | |- context [fexp prec emax (Z.pos ?p + (e + -52))] =>
      replace (Z.pos p + (e + -52))%Z with (Z.pos d + e)%Z by lia
  end.
  rewrite Hc.
  replace (e - (e + -52))%Z with 52%Z by lia.
  cbn [shr].
  match goal with
  | |- context [SpecFloat.iter_pos shr_1 52 ?r] =>
      change (SpecFloat.iter_pos shr_1 52 r)
        with {| shr_m := Z.pos m; shr_r := false; shr_s := false |}
  end.
  cbn [shr_m loc_of_shr_record round_nearest_even].
  replace (e + -52 + 52)%Z with e by lia.
  cbn [Zdigits2]. fold d. rewrite Hc, Z.sub_diag. cbn [shr shr_m].
  by rewrite He.
Qed.

Lemma fdiv_self x : is_finite x = true → is_zero x = false → (x / x) = 1.
Proof.
  rewrite is_finite_spec, is_zero_spec. intros Hf Hz.
  apply Prim2SF_inj. rewrite div_spec.
  change (Prim2SF 1) with (S754_finite false 4503599627370496 (-52)).
  destruct (Prim2SF x) as [s|s| |s m e]; try done.
  unfold SF64div. cbn [SFdiv]. unfold SFdiv_core_binary.
  rewrite !Z.sub_diag.
  change (Z.min (fexp prec emax 0) 0) with (-53)%Z.
  change (0 - -53)%Z with 53%Z. cbv beta iota zeta.
  change (IntDef.Z.div_eucl (Z.shiftl (Z.pos m) 53) (Z.pos m))
    with (Z.div_eucl (Z.shiftl (Z.pos m) 53) (Z.pos m)).
  assert (Hd : Z.div_eucl (Z.shiftl (Z.pos m) 53) (Z.pos m) = (9007199254740992, 0)%Z).
  { rewrite Z.shiftl_mul_pow2 by lia.
    pose proof (Z.div_mul (2 ^ 53) (Z.pos m) ltac:(lia)) as Hq.
    pose proof (Z.mod_mul (2 ^ 53) (Z.pos m) ltac:(lia)) as Hr.
    rewrite (Z.mul_comm (Z.pos m)).
    unfold Z.div, Z.modulo in Hq, Hr.
    destruct (Z.div_eucl (2 ^ 53 * Z.pos m) (Z.pos m)) as [q r]. by subst. }
  rewrite Hd.
  replace (new_location (Z.pos m) 0) with loc_Exact
    by (unfold new_location; by destruct (Z.even (Z.pos m))).
  by destruct s.
Qed.

Lemma fsqrt_not_negative x : (PrimFloat.sqrt x <? 0) = false.
Proof.
  rewrite FloatAxioms.ltb_spec, sqrt_spec. change (Prim2SF 0) with (S754_zero false).
  destruct (Prim2SF x) as [s|s| |s m e]; try done; try (by destruct s).
  destruct s; [done|]. unfold SF64sqrt. cbn [SFsqrt].
  destruct (SFsqrt_core_binary _ _ _ _) as [[mz ez] lz].
  unfold binary_round_aux.
  destruct (shr_fexp _ _ mz ez lz) as [mrs' e'].
  destruct (shr_fexp _ _ _ e' loc_Exact) as [mrs'' e''].
  destruct (shr_m mrs''); try done. by destruct (_ <=? _)%Z.
Qed.

Lemma fis_nan_eq x : is_nan x = true → x = nan.
Proof.
  rewrite is_nan_spec. intros Hx. apply Prim2SF_inj.
  change (Prim2SF nan) with S754_nan. by destruct (Prim2SF x).
Qed.

Lemma fdiv_nan_l x : (nan / x) = nan.
Proof.
  apply Prim2SF_inj. rewrite div_spec. by change (Prim2SF nan) with S754_nan.
Qed.

Lemma fmul_nan_l x : (nan * x) = nan.
Proof.
  apply Prim2SF_inj. rewrite mul_spec. by change (Prim2SF nan) with S754_nan.
Qed.

Lemma fleb_not_nan_l x y : (x <=? y) = true → is_nan x = false.
Proof.
  rewrite is_nan_spec, FloatAxioms.leb_spec. unfold SFleb.
  by destruct (Prim2SF x).
Qed.

Lemma fltb_asym x y : (x <? y) = true → (y <? x) = false.
Proof.
  rewrite !FloatAxioms.ltb_spec. unfold SFltb.
  rewrite (SFcompare_antisym (Prim2SF x) (Prim2SF y)).
  by destruct (SFcompare (Prim2SF x) (Prim2SF y)) as [[]|].
Qed.

(** A number that is not negative and not a zero is above zero. *)
Lemma fpositive x :
  is_nan x = false → (x <? 0) = false → is_zero x = false → (0 <? x) = true.
Proof.
  rewrite is_nan_spec, is_zero_spec, !FloatAxioms.ltb_spec.
  change (Prim2SF 0) with (S754_zero false).
  destruct (Prim2SF x) as [s|s| |s m e]; try done; by destruct s.
Qed.

Lemma ffinite_le_5 x : (x <=? 5) = true → (x <? 0) = false → is_finite x = true.
Proof.
  rewrite is_finite_spec, FloatAxioms.leb_spec, FloatAxioms.ltb_spec.
  change (Prim2SF 0) with (S754_zero false).
  change (Prim2SF 5) with (S754_finite false 5629499534213120 (-50)).
  destruct (Prim2SF x) as [s|s| |s m e]; try done; by destruct s.
Qed.

Lemma fabove_5 x :
  (5 <? x) = true → is_zero x = false ∧ (0 <? x) = true ∧ (x <? 0) = false.
Proof.
  rewrite is_zero_spec, !FloatAxioms.ltb_spec.
  change (Prim2SF 0) with (S754_zero false).
  change (Prim2SF 5) with (S754_finite false 5629499534213120 (-50)).
  destruct (Prim2SF x) as [s|s| |s m e]; try done; by destruct s.
Qed.

(** The three cases of the speed limit: a length of at most 5, where
    nothing is rescaled; a length above 5; and a length that is NaN. *)
Lemma fmax_0_r x :
  is_nan x = false → (x <? 0) = false → is_zero x = false → fmax x 0 = x.
Proof.
  intros Hn Hneg Hz. unfold fmax. change (is_nan 0) with false.
  by rewrite Hn, Hneg, (fpositive x).
Qed.

Lemma clampLength_binary64 (v : vec3 float) :
  ((length v <=? 5) = true → clampLength v (ndec 0 0) (ndec 5 0) = v) ∧
  ((5 <? length v) = true →
   clampLength v (ndec 0 0) (ndec 5 0) = mulScalar v (5 / length v)) ∧
  (is_nan (length v) = true → clampLength v (ndec 0 0) (ndec 5 0) = Vec3 nan nan nan).
Proof.
  assert (Hsq : (length v <? 0) = false) by apply fsqrt_not_negative.
  unfold clampLength. set (len := length v) in *.
  change (ndec 0 0 : float) with 0. change (ndec 5 0 : float) with 5.
  cbn [nis_zero nmin nmax ndiv float_number].
  change (len =? 0) with (is_zero len).
  split; [|split].
  - intros Hle. destruct (is_zero len) eqn:Hz; [done|].
    pose proof (fleb_not_nan_l _ _ Hle) as Hn.
    rewrite fmax_0_r by done.
    assert (Hgt : (5 <? len) = false).
    { pose proof (fleb_ltb len 5 Hn eq_refl) as E. rewrite Hle in E.
      by destruct (5 <? len). }
    assert (Hclamped : fmin len 5 = len).
    { unfold fmin. change (is_nan 5) with false. rewrite Hn, Hgt. cbn [orb].
      destruct (len <? 5) eqn:Hlt; [done|]. destruct (get_sign len); [done|].
      symmetry. by apply fleb_not_ltb_eq. }
    rewrite Hclamped, fdiv_self by (try done; by apply ffinite_le_5).
    destruct v as [a b c]. unfold mulScalar. cbn [v0 v1 v2 nmul float_number].
    by rewrite !fmul_1_r.
  - intros Hgt. destruct (fabove_5 len Hgt) as (Hz & Hpos & _).
    pose proof (fltb_not_nan_r _ _ Hgt) as Hn.
    rewrite Hz, fmax_0_r by done.
    unfold fmin. change (is_nan 5) with false.
    by rewrite Hn, (fltb_asym _ _ Hgt), Hgt.
  - intros Hn. pose proof (fis_nan_eq _ Hn) as E. rewrite E.
    change (is_zero nan) with false. change (fmin (fmax nan 0) 5) with nan.
    cbv iota. rewrite fdiv_nan_l.
    destruct v as [a b c]. unfold mulScalar. cbn [v0 v1 v2 nmul float_number].
    by rewrite !fmul_nan_r.
Qed.

(** *** Zeros *)

Lemma fmul_zero_or_nan_r x z : zero_or_nan z = true → zero_or_nan (x * z) = true.
Proof.
  unfold zero_or_nan. intros [Hz|Hn%fis_nan_eq]%orb_true_iff.
  - destruct (fmul_zero_r x z Hz) as [-> ->]. by destruct (is_finite x).
  - by rewrite Hn, fmul_nan_r.
Qed.

Lemma fmul_zero_or_nan_l z x : zero_or_nan z = true → zero_or_nan (z * x) = true.
Proof.
  unfold zero_or_nan. intros [Hz|Hn%fis_nan_eq]%orb_true_iff.
  - destruct (fmul_zero_l z x Hz) as [-> ->]. by destruct (is_finite x).
  - by rewrite Hn, fmul_nan_l.
Qed.

Lemma fadd_zero_or_nan x y :
  zero_or_nan x = true → zero_or_nan y = true → zero_or_nan (x + y) = true.
Proof.
  unfold zero_or_nan. rewrite !is_zero_spec, !is_nan_spec, add_spec.
  destruct (Prim2SF x) as [sx| | |], (Prim2SF y) as [sy| | |]; try done.
  by destruct sx, sy.
Qed.

Lemma fopp_zero x : is_zero x = true → is_zero (- x) = true.
Proof.
  rewrite !is_zero_spec, opp_spec. by destruct (Prim2SF x).
Qed.

Lemma zero_not_nan x : zero_or_nan x = true → is_nan x = false → is_zero x = true.
Proof. unfold zero_or_nan. by destruct (is_zero x), (is_nan x). Qed.

Lemma zero_is_zero_or_nan x : is_zero x = true → zero_or_nan x = true.
Proof. unfold zero_or_nan. by intros ->. Qed.

(** Adding a zero leaves the number as it is. *)
Lemma fadd_zero_same x z : is_zero z = true → same_number (x + z) x.
Proof.
  intros Hz. destruct (is_zero x) eqn:Hx.
  - right. split; [by apply fadd_zero_zero|done].
  - left. by apply fadd_zero_r.
Qed.

(** *** The shape term when deformFactor is 1 *)

Lemma shape_component_binary64 (d s : float) :
  let c := d * (s * (1 - fmin 1 (fmax 0 1))) in
  is_zero c = is_finite s && is_finite d ∧
  is_nan c = negb (is_finite s && is_finite d).
Proof.
  cbv zeta. change (1 - fmin 1 (fmax 0 1)) with 0.
  destruct (fmul_zero_r s 0 eq_refl) as [Hz Hn].
  destruct (is_finite s) eqn:Hs.
  - destruct (fmul_zero_r d (s * 0) Hz) as [-> ->]. done.
  - apply fis_nan_eq in Hn. rewrite Hn, fmul_nan_r. done.
Qed.

(** *** A field without force *)

Lemma targetVelocity_zero_or_nan (ws : gmap string (value float)) projectToShape
    noiseFn time (pos : vec3 float) :
  identity_projector projectToShape →
  finite_vec64 pos = true →
  is_zero (to_number (ws !! "turbulence")) = true →
  is_zero (to_number (ws !! "flowSpeed")) = true →
  is_zero (to_number (ws !! "verticalBias")) = true →
  let tgt := targetVelocity ws projectToShape noiseFn time pos in
  zero_or_nan (v0 tgt) = true ∧ zero_or_nan (v1 tgt) = true ∧ zero_or_nan (v2 tgt) = true.
Proof.
  intros Hid Hpos Hturb Hflow Hvert. cbv zeta.
  unfold targetVelocity, v_shape, v_large, v_small, v_direction, v_vertical.
  replace (match projectToShape with Some f => f pos | None => pos end) with pos
    by (destruct projectToShape as [f|]; [by rewrite (Hid f)|done]).
  destruct pos as [x y z]. unfold finite_vec64 in Hpos. cbn [v0 v1 v2] in Hpos.
  apply andb_true_iff in Hpos as [[Hx Hy]%andb_true_iff Hz].
  unfold sub. cbn [v0 v1 v2 nsub float_number]. rewrite !fsub_self by done.
  change (normalizeSafe (Vec3 0 0 0)) with (Vec3 0 0 0).
  set (w := (to_number (ws !! "shapeStrength") * _)%js).
  set (dl := normalizeSafe _). set (ds := normalizeSafe _). set (dd := normalizeSafe _).
  unfold add, mulScalar. cbn [v0 v1 v2 nadd nmul nneg float_number].
  assert (Hsmall : zero_or_nan (to_number (ws !! "turbulence") * ndec 5 1) = true)
    by (by apply fmul_zero_or_nan_l, zero_is_zero_or_nan).
  repeat split;
    repeat (first [ apply fadd_zero_or_nan
                  | by apply fmul_zero_or_nan_l
                  | by apply fmul_zero_or_nan_r, zero_is_zero_or_nan
                  | by apply fmul_zero_or_nan_r
                  | by apply zero_is_zero_or_nan, fopp_zero
                  | done ]).
Qed.

(** The smoothing towards a zero target multiplies by [1 - 0.2]. *)
Lemma mix_zero_target (a t : float) :
  is_zero t = true →
  same_number (a * (ndec 1 0 - ndec 2 1) + t * ndec 2 1) (a * (ndec 1 0 - ndec 2 1)).
Proof.
  intros Ht. apply fadd_zero_same.
  destruct (fmul_zero_l t (ndec 2 1) Ht) as [-> _]. reflexivity.
Qed.
End Binary64.

(** ** Exact arithmetic *)

Section Exact.
Local Open Scope R_scope.

Ltac xred :=
  cbn [nadd nsub nmul ndiv nneg nsqrt nmin nmax nis_zero ntruthy nNaN ndec
       xreal_number xlift2 xneg add sub mulScalar mixVec clamp01 v0 v1 v2 RV
       is_fin fin_vec andb].

Lemma xdec_int (m : Z) : xdec m 0 = Fin (IZR m).
Proof. unfold xdec. f_equal. simpl. field. Qed.

Lemma xdec_tenths (m : Z) : xdec m 1 = Fin (IZR m / 10).
Proof. unfold xdec. f_equal. simpl. field. Qed.

Lemma xdec_floor : xdec 1 4 = Fin (1 / 10000).
Proof. unfold xdec. f_equal. simpl. field. Qed.

Lemma zero3_RV : @zero3 xreal _ = RV 0 0 0.
Proof. unfold zero3, RV. xred. by rewrite xdec_int. Qed.

Lemma is_fin_inv (x : xreal) : is_fin x = true → ∃ r, x = Fin r.
Proof. destruct x; [eauto|discriminate]. Qed.

Lemma fin_vec_inv (v : vec3 xreal) : fin_vec v = true → ∃ a b c, v = RV a b c.
Proof.
  destruct v as [[a|] [b|] [c|]]; try discriminate. intros _. by exists a, b, c.
Qed.

Lemma fin_vec_RV a b c : fin_vec (RV a b c) = true.
Proof. reflexivity. Qed.

Lemma sumsq_nonneg a b c : 0 <= a * a + b * b + c * c.
Proof. nra. Qed.

Lemma norm3_nonneg a b c : 0 <= norm3 a b c.
Proof. apply sqrt_pos. Qed.

Lemma norm3_zero a b c : norm3 a b c = 0 → a = 0 ∧ b = 0 ∧ c = 0.
Proof.
  intros Hn. apply sqrt_eq_0 in Hn; [|apply sumsq_nonneg]. repeat split; nra.
Qed.

Lemma norm3_origin : norm3 0 0 0 = 0.
Proof.
  unfold norm3. replace (0 * 0 + 0 * 0 + 0 * 0) with 0 by ring. apply sqrt_0.
Qed.

Lemma norm3_scale a b c s :
  0 <= s → norm3 (a * s) (b * s) (c * s) = norm3 a b c * s.
Proof.
  intros Hs. unfold norm3.
  replace (a * s * (a * s) + b * s * (b * s) + c * s * (c * s))
    with ((a * a + b * b + c * c) * (s * s)) by ring.
  rewrite sqrt_mult; [|apply sumsq_nonneg|nra]. by rewrite sqrt_square.
Qed.

Lemma norm3_le_iff a b c r :
  0 <= r → norm3 a b c <= r ↔ a * a + b * b + c * c <= r * r.
Proof.
  intros Hr. pose proof (sumsq_nonneg a b c) as Hs. split.
  - intros Hle. pose proof (norm3_nonneg a b c) as Hn.
    rewrite <- (sqrt_sqrt (a * a + b * b + c * c)) by done. fold (norm3 a b c). nra.
  - intros Hle. unfold norm3. rewrite <- (sqrt_square r) by done.
    by apply sqrt_le_1_alt.
Qed.

Lemma xsqrt_Fin r : 0 <= r → xsqrt (Fin r) = Fin (sqrt r).
Proof. intros Hr. unfold xsqrt. destruct (Rlt_dec r 0); [lra|done]. Qed.

Lemma xdiv_Fin a b : b ≠ 0 → xdiv (Fin a) (Fin b) = Fin (a / b).
Proof. intros Hb. unfold xdiv. by destruct (Req_dec_T b 0). Qed.

Lemma length_RV a b c : length (RV a b c) = Fin (norm3 a b c).
Proof. unfold length. xred. apply xsqrt_Fin, sumsq_nonneg. Qed.

Lemma normalizeSafe_origin a b c :
  norm3 a b c = 0 → normalizeSafe (RV a b c) = RV 0 0 0.
Proof.
  intros Hn. unfold normalizeSafe. rewrite length_RV, Hn. xred.
  unfold xis_zero. destruct (Req_dec_T 0 0); [|done]. by rewrite xdec_int.
Qed.

Lemma normalizeSafe_unit a b c :
  norm3 a b c ≠ 0 →
  normalizeSafe (RV a b c)
  = RV (a / norm3 a b c) (b / norm3 a b c) (c / norm3 a b c).
Proof.
  intros Hn. unfold normalizeSafe. rewrite length_RV. xred.
  unfold xis_zero. destruct (Req_dec_T (norm3 a b c) 0); [done|].
  by rewrite !xdiv_Fin.
Qed.

Lemma normalizeSafe_fin (v : vec3 xreal) :
  fin_vec v = true → fin_vec (normalizeSafe v) = true.
Proof.
  intros (a & b & c & ->)%fin_vec_inv.
  destruct (Req_dec_T (norm3 a b c) 0) as [Hn|Hn].
  - by rewrite normalizeSafe_origin.
  - by rewrite normalizeSafe_unit.
Qed.

Lemma clampLength_RV a b c :
  norm3 a b c ≠ 0 →
  clampLength (RV a b c) (Fin 0) (Fin 5)
  = RV (a * (Rmin (Rmax (norm3 a b c) 0) 5 / norm3 a b c))
       (b * (Rmin (Rmax (norm3 a b c) 0) 5 / norm3 a b c))
       (c * (Rmin (Rmax (norm3 a b c) 0) 5 / norm3 a b c)).
Proof.
  intros Hn. unfold clampLength. rewrite length_RV. xred.
  unfold xis_zero. destruct (Req_dec_T (norm3 a b c) 0); [done|].
  by rewrite xdiv_Fin.
Qed.

Lemma clampLength_rest a b c :
  norm3 a b c = 0 → clampLength (RV a b c) (Fin 0) (Fin 5) = RV a b c.
Proof.
  intros Hn. unfold clampLength. rewrite length_RV, Hn. xred.
  unfold xis_zero. by destruct (Req_dec_T 0 0).
Qed.

(** The speed limit: the clamped vector is at most 5 long. *)
Lemma clampLength_bound a b c :
  ∃ a' b' c',
    clampLength (RV a b c) (Fin 0) (Fin 5) = RV a' b' c' ∧ norm3 a' b' c' <= 5.
Proof.
  destruct (Req_dec_T (norm3 a b c) 0) as [Hn|Hn].
  - exists a, b, c. split; [by apply clampLength_rest|]. lra.
  - eexists _, _, _. split; [by apply clampLength_RV|].
    assert (Hpos : 0 < norm3 a b c) by (pose proof (norm3_nonneg a b c); lra).
    rewrite norm3_scale.
    + unfold Rdiv. rewrite (Rmult_comm (Rmin _ _)), <- Rmult_assoc.
      rewrite Rinv_r by done. rewrite Rmult_1_l. apply Rmin_r.
    + apply Rmult_le_pos.
      * apply Rmin_glb; [|lra]. apply Rmax_r.
      * left. by apply Rinv_0_lt_compat.
Qed.

(** Below the limit the clamp changes nothing. *)
Lemma clampLength_id a b c :
  norm3 a b c <= 5 → clampLength (RV a b c) (Fin 0) (Fin 5) = RV a b c.
Proof.
  intros Hle. destruct (Req_dec_T (norm3 a b c) 0) as [Hn|Hn].
  - by apply clampLength_rest.
  - rewrite clampLength_RV by done.
    assert (Hpos : 0 < norm3 a b c) by (pose proof (norm3_nonneg a b c); lra).
    rewrite Rmax_left by lra. rewrite Rmin_left by done.
    unfold RV. f_equal; f_equal; field; done.
Qed.


(** *** Arithmetic with rounding *)

Section Rounded.
Variable rnd : R → R.
Variable u : R.
Hypothesis Hrnd : rounding rnd u.

Lemma rnd_nonneg x : 0 <= x → (1 - u) * x <= rnd x <= (1 + u) * x.
Proof using Hrnd.
  intros Hx. destruct Hrnd as [Hu Herr]. specialize (Herr x).
  rewrite (Rabs_pos_eq x) in Herr by done.
  unfold Rabs in Herr. destruct (Rcase_abs (rnd x - x)); lra.
Qed.

Lemma rnd_abs x : Rabs (rnd x) <= (1 + u) * Rabs x.
Proof using Hrnd.
  destruct Hrnd as [Hu Herr]. specialize (Herr x).
  replace (rnd x) with (rnd x - x + x) by ring.
  pose proof (Rabs_triang (rnd x - x) x). lra.
Qed.

(** The sum of the squares, as [length] computes it. *)
Lemma rounded_sumsq a b c :
  (1 - u) ^ 3 * (a * a + b * b + c * c)
  <= rnd (rnd (rnd (a * a) + rnd (b * b)) + rnd (c * c)).
Proof using Hrnd.
  destruct Hrnd as [Hu _].
  pose proof (rnd_nonneg (a * a) ltac:(nra)) as HA.
  pose proof (rnd_nonneg (b * b) ltac:(nra)) as HB.
  pose proof (rnd_nonneg (c * c) ltac:(nra)) as HC.
  assert (HA0 : 0 <= rnd (a * a)) by nra.
  assert (HB0 : 0 <= rnd (b * b)) by nra.
  assert (HC0 : 0 <= rnd (c * c)) by nra.
  pose proof (rnd_nonneg (rnd (a * a) + rnd (b * b)) ltac:(lra)) as HAB.
  assert (HAB0 : 0 <= rnd (rnd (a * a) + rnd (b * b))) by nra.
  pose proof (rnd_nonneg (rnd (rnd (a * a) + rnd (b * b)) + rnd (c * c)) ltac:(lra)) as HS.
  assert (H1 : (1 - u) ^ 2 * (a * a + b * b) <= rnd (rnd (a * a) + rnd (b * b))).
  { apply Rle_trans with ((1 - u) * (rnd (a * a) + rnd (b * b))); [|lra].
    cbn [pow]. nra. }
  assert (H2 : (1 - u) ^ 2 * (c * c) <= rnd (c * c)).
  { apply Rle_trans with ((1 - u) * (c * c)); [|lra]. cbn [pow].
    assert (0 <= c * c) by nra. nra. }
  apply Rle_trans
    with ((1 - u) * (rnd (rnd (a * a) + rnd (b * b)) + rnd (c * c))); [|lra].
  replace ((1 - u) ^ 3 * (a * a + b * b + c * c))
    with ((1 - u) * ((1 - u) ^ 2 * (a * a + b * b) + (1 - u) ^ 2 * (c * c)))
    by (cbn [pow]; ring).
  apply Rmult_le_compat_l; lra.
Qed.

(** The length that [length] computes, against the exact length. *)
Lemma rounded_length a b c :
  (1 - u) ^ 3 * norm3 a b c
  <= rnd (sqrt (rnd (rnd (rnd (a * a) + rnd (b * b)) + rnd (c * c)))).
Proof using Hrnd.
  destruct Hrnd as [Hu _].
  pose proof (rounded_sumsq a b c) as HS.
  pose proof (sumsq_nonneg a b c) as HQ.
  set (Q := a * a + b * b + c * c) in *.
  set (S := rnd (rnd (rnd (a * a) + rnd (b * b)) + rnd (c * c))) in *.
  assert (Hp3 : 0 <= (1 - u) ^ 3) by (apply pow_le; lra).
  assert (Hp2 : 0 <= (1 - u) ^ 2) by (apply pow_le; lra).
  assert (HS0 : 0 <= S) by nra.
  pose proof (rnd_nonneg (sqrt S) (sqrt_pos S)) as Hl.
  assert (Hroot : (1 - u) ^ 2 * norm3 a b c <= sqrt S).
  { unfold norm3. fold Q.
    rewrite <- (sqrt_square ((1 - u) ^ 2)) at 1 by done.
    rewrite <- sqrt_mult by nra.
    apply sqrt_le_1_alt.
    apply Rle_trans with ((1 - u) ^ 3 * Q); [|done].
    replace ((1 - u) ^ 2 * (1 - u) ^ 2 * Q) with ((1 - u) * ((1 - u) ^ 3 * Q))
      by (cbn [pow]; ring).
    assert (0 <= (1 - u) ^ 3 * Q) by nra. nra. }
  pose proof (norm3_nonneg a b c).
  apply Rle_trans with ((1 - u) * sqrt S); [|lra].
  replace ((1 - u) ^ 3 * norm3 a b c) with ((1 - u) * ((1 - u) ^ 2 * norm3 a b c))
    by (cbn [pow]; ring).
  apply Rmult_le_compat_l; lra.
Qed.

(** A vector whose components are rounded products by [k]. *)
Lemma rounded_scaled a b c k :
  0 <= k →
  norm3 (rnd (a * k)) (rnd (b * k)) (rnd (c * k)) <= (1 + u) * k * norm3 a b c.
Proof using Hrnd.
  intros Hk. destruct Hrnd as [Hu _].
  pose proof (norm3_nonneg a b c) as Hn.
  assert (Hsq : ∀ x, rnd (x * k) * rnd (x * k) <= ((1 + u) * k) * ((1 + u) * k) * (x * x)).
  { intros x. pose proof (rnd_abs (x * k)) as Hx.
    rewrite Rabs_mult, (Rabs_pos_eq k) in Hx by done.
    pose proof (Rabs_pos (rnd (x * k))). pose proof (Rabs_pos x).
    replace (rnd (x * k) * rnd (x * k)) with (Rabs (rnd (x * k)) * Rabs (rnd (x * k)))
      by (unfold Rabs; destruct (Rcase_abs _); ring).
    replace (x * x) with (Rabs x * Rabs x)
      by (unfold Rabs; destruct (Rcase_abs _); ring).
    nra. }
  apply norm3_le_iff; [apply Rmult_le_pos; [apply Rmult_le_pos; lra|done]|].
  pose proof (Hsq a). pose proof (Hsq b). pose proof (Hsq c).
  assert (HQ : norm3 a b c * norm3 a b c = a * a + b * b + c * c)
    by (apply sqrt_sqrt, sumsq_nonneg).
  replace ((1 + u) * k * norm3 a b c * ((1 + u) * k * norm3 a b c))
    with ((1 + u) * k * ((1 + u) * k) * (norm3 a b c * norm3 a b c)) by ring.
  rewrite HQ. lra.
Qed.

(** The speed limit with rounding: the clamped vector has a NaN, or is
    at most 5 long up to the roundings of the clamp. *)
Lemma clampLength_rounded (v : vec3 xreal) :
  fin_vec (@clampLength xreal (rounded_number rnd) v (Fin 0) (Fin 5)) = true →
  ∃ a b c,
    @clampLength xreal (rounded_number rnd) v (Fin 0) (Fin 5) = RV a b c ∧
    norm3 a b c * (1 - u) ^ 3 <= 5 * (1 + u) ^ 2.
Proof using Hrnd.
  pose proof Hrnd as [Hu _].
  destruct v as [[a|] [b|] [c|]]; try discriminate.
  pose proof (rounded_length a b c) as Hlen.
  pose proof (rounded_sumsq a b c) as HS.
  pose proof (sumsq_nonneg a b c) as HQ.
  pose proof (norm3_nonneg a b c) as Hn.
  assert (Hp3 : 0 <= (1 - u) ^ 3) by (apply pow_le; lra).
  assert (Hq2 : 1 <= (1 + u) ^ 2) by (cbn [pow]; nra).
  unfold clampLength, length.
  cbn [nadd nmul nsqrt nis_zero nmin nmax ndiv rounded_number rlift2 rsqrt
       v0 v1 v2 mulScalar xlift2].
  set (S := rnd (rnd (rnd (a * a) + rnd (b * b)) + rnd (c * c))) in *.
  destruct (Rlt_dec S 0) as [Hneg|_]; [nra|].
  set (len := rnd (sqrt S)) in *.
  unfold xis_zero. destruct (Req_dec_T len 0) as [H0|H0].
  - intros _. exists a, b, c. split; [done|]. nra.
  - cbn [nmul ndiv nmin nmax rounded_number rlift2 xlift2 rdiv v0 v1 v2].
    destruct (Req_dec_T len 0) as [|_]; [done|].
    assert (Hpos : 0 < len) by nra.
    set (m := Rmin (Rmax len 0) 5).
    assert (Hm : 0 <= m <= 5 ∧ m <= len).
    { unfold m, Rmin, Rmax. repeat destruct (Rle_dec _ _); lra. }
    assert (Hq : 0 <= m / len) by (apply Rmult_le_pos; [lra|left; by apply Rinv_0_lt_compat]).
    pose proof (rnd_nonneg (m / len) Hq) as Hk.
    set (k := rnd (m / len)) in *.
    intros _. eexists _, _, _. split; [reflexivity|].
    assert (Hk0 : 0 <= k) by nra.
    pose proof (rounded_scaled a b c k Hk0) as Hsc.
    assert (Hkn : k * norm3 a b c * (1 - u) ^ 3 <= (1 + u) * m).
    { apply Rle_trans with (k * len); [nra|].
      apply Rle_trans with ((1 + u) * (m / len) * len); [nra|].
      replace ((1 + u) * (m / len) * len) with ((1 + u) * m) by (field; lra). lra. }
    apply Rle_trans with ((1 + u) * (k * norm3 a b c * (1 - u) ^ 3)); [nra|].
    apply Rle_trans with ((1 + u) * ((1 + u) * m)); [nra|]. cbn [pow]. nra.
Qed.

End Rounded.

(** *** Finite inputs give finite contributions *)

Lemma fin_add (a b : vec3 xreal) :
  fin_vec a = true → fin_vec b = true → fin_vec (add a b) = true.
Proof. by intros (? & ? & ? & ->)%fin_vec_inv (? & ? & ? & ->)%fin_vec_inv. Qed.

Lemma fin_sub (a b : vec3 xreal) :
  fin_vec a = true → fin_vec b = true → fin_vec (sub a b) = true.
Proof. by intros (? & ? & ? & ->)%fin_vec_inv (? & ? & ? & ->)%fin_vec_inv. Qed.

Lemma fin_mulScalar (v : vec3 xreal) (s : xreal) :
  fin_vec v = true → is_fin s = true → fin_vec (mulScalar v s) = true.
Proof. by intros (? & ? & ? & ->)%fin_vec_inv (? & ->)%is_fin_inv. Qed.

Lemma fin_mixVec (a b : vec3 xreal) (t : xreal) :
  fin_vec a = true → fin_vec b = true → is_fin t = true →
  fin_vec (mixVec a b t) = true.
Proof.
  by intros (? & ? & ? & ->)%fin_vec_inv (? & ? & ? & ->)%fin_vec_inv
    (? & ->)%is_fin_inv.
Qed.

Lemma fin_clamp01 (x : xreal) : is_fin x = true → is_fin (clamp01 x) = true.
Proof. by intros (? & ->)%is_fin_inv. Qed.

Lemma fin_zero3 : fin_vec (@zero3 xreal _) = true.
Proof. reflexivity. Qed.

Lemma fin_timeOrZero (time : option xreal) :
  finite_time time = true → is_fin (timeOrZero time) = true.
Proof.
  destruct time as [[t|]|]; try done. intros _. unfold timeOrZero. xred.
  unfold xtruthy. by destruct (Req_dec_T t 0).
Qed.

Lemma finite_state_inv (ws : gmap string (value xreal)) :
  finite_state ws = true →
  is_fin (to_number (ws !! "shapeStrength")) = true
  ∧ is_fin (to_number (ws !! "deformFactor")) = true
  ∧ is_fin (to_number (ws !! "noiseScaleLarge")) = true
  ∧ is_fin (to_number (ws !! "noiseScaleSmall")) = true
  ∧ is_fin (to_number (ws !! "turbulence")) = true
  ∧ fin_vec (or_zero_vec (ws !! "flowDirection")) = true
  ∧ is_fin (to_number (ws !! "flowSpeed")) = true
  ∧ is_fin (to_number (ws !! "verticalBias")) = true
  ∧ is_fin (to_number (ws !! "lifeSpan")) = true.
Proof.
  unfold finite_state. rewrite !andb_true_iff. tauto.
Qed.

Lemma fin_v_shape ws projectToShape pos :
  finite_state ws = true → finite_projector projectToShape →
  fin_vec pos = true → fin_vec (v_shape ws projectToShape pos) = true.
Proof.
  intros (Hs & Hd & _)%finite_state_inv Hproj Hpos. unfold v_shape.
  apply fin_mulScalar.
  - apply normalizeSafe_fin, fin_sub; [|done].
    destruct projectToShape as [f|]; [by apply (Hproj f)|done].
  - apply is_fin_inv in Hs as [s ->].
    apply fin_clamp01, is_fin_inv in Hd as [d ->]. done.
Qed.

Lemma fin_v_large ws noiseFn pos t :
  finite_state ws = true → finite_noise noiseFn →
  fin_vec pos = true → is_fin t = true →
  fin_vec (v_large ws noiseFn pos t) = true.
Proof.
  intros (_ & _ & Hl & _ & Ht & _)%finite_state_inv Hnoise Hpos Htime.
  unfold v_large. apply fin_mulScalar; [|done]. apply normalizeSafe_fin.
  destruct noiseFn as [f|]; [|done].
  apply (Hnoise f); [done|by apply fin_mulScalar|done].
Qed.

Lemma fin_v_small ws noiseFn pos t :
  finite_state ws = true → finite_noise noiseFn →
  fin_vec pos = true → is_fin t = true →
  fin_vec (v_small ws noiseFn pos t) = true.
Proof.
  intros (_ & _ & _ & Hl & Ht & _)%finite_state_inv Hnoise Hpos Htime.
  unfold v_small. apply fin_mulScalar.
  - apply normalizeSafe_fin. destruct noiseFn as [f|]; [|done].
    apply (Hnoise f); [done|by apply fin_mulScalar|].
    by apply is_fin_inv in Htime as [? ->].
  - by apply is_fin_inv in Ht as [? ->].
Qed.

Lemma fin_v_direction ws :
  finite_state ws = true → fin_vec (v_direction ws) = true.
Proof.
  intros (_ & _ & _ & _ & _ & Hd & Hs & _)%finite_state_inv. unfold v_direction.
  apply fin_mulScalar; [by apply normalizeSafe_fin|done].
Qed.

Lemma fin_v_vertical ws :
  finite_state ws = true → fin_vec (v_vertical ws) = true.
Proof.
  intros (_ & _ & _ & _ & _ & _ & _ & Hv & _)%finite_state_inv. unfold v_vertical.
  by apply is_fin_inv in Hv as [? ->].
Qed.

Lemma fin_targetVelocity ws projectToShape noiseFn time pos :
  finite_state ws = true → finite_projector projectToShape →
  finite_noise noiseFn → finite_time time = true → fin_vec pos = true →
  fin_vec (targetVelocity ws projectToShape noiseFn time pos) = true.
Proof.
  intros Hws Hproj Hnoise Htime%fin_timeOrZero Hpos. unfold targetVelocity.
  repeat apply fin_add;
    auto using fin_v_shape, fin_v_large, fin_v_small, fin_v_direction, fin_v_vertical.
Qed.

Lemma finite_particle_inv (q : particle xreal) :
  finite_particle q = true →
  fin_vec (default zero3 (position q)) = true
  ∧ fin_vec (default zero3 (velocity q)) = true
  ∧ is_fin (default (ndec 1 0) (life q)) = true.
Proof.
  unfold finite_particle. rewrite !andb_true_iff.
  destruct q as [[pos|] [vel|] [l|] tg]; simpl; tauto.
Qed.

(** A vector with a NaN is clamped to a vector with a NaN. *)
Lemma clampLength_nan (v : vec3 xreal) :
  fin_vec v = false → fin_vec (clampLength v (Fin 0) (Fin 5)) = false.
Proof. destruct v as [[a|] [b|] [c|]]; try discriminate; reflexivity. Qed.



(** *** A field without force *)

Lemma RV_eq a b c a' b' c' : a = a' → b = b' → c = c' → RV a b c = RV a' b' c'.
Proof. by intros -> -> ->. Qed.

Lemma norm3_scale_abs a b c s :
  norm3 (a * s) (b * s) (c * s) = norm3 a b c * Rabs s.
Proof.
  unfold norm3.
  replace (a * s * (a * s) + b * s * (b * s) + c * s * (c * s))
    with ((a * a + b * b + c * c) * Rsqr s) by (unfold Rsqr; ring).
  rewrite sqrt_mult; [|apply sumsq_nonneg|apply Rle_0_sqr].
  by rewrite sqrt_Rsqr_abs.
Qed.

(** The direction of the noise, on finite arguments. *)
Lemma noise_direction noiseFn (pos : vec3 xreal) (k t : xreal) :
  finite_noise noiseFn →
  fin_vec pos = true → is_fin k = true → is_fin t = true →
  ∃ x y z,
    normalizeSafe
      match noiseFn with
      | Some f => f (mulScalar pos k) t
      | None => Vec3 (ndec 0 0) (ndec 0 0) (ndec 0 0)
      end = RV x y z.
Proof.
  intros Hnoise Hpos Hk Ht. apply fin_vec_inv, normalizeSafe_fin.
  destruct noiseFn as [f|]; [|done].
  apply (Hnoise f); [done|by apply fin_mulScalar|done].
Qed.

(** With the identity projector and neither turbulence nor flow, the
    target velocity is the vertical bias alone. *)
Lemma targetVelocity_vertical ws projectToShape noiseFn time a b c vb :
  finite_state ws = true →
  identity_projector projectToShape →
  finite_noise noiseFn →
  finite_time time = true →
  to_number (ws !! "turbulence") = Fin 0 →
  to_number (ws !! "flowSpeed") = Fin 0 →
  to_number (ws !! "verticalBias") = Fin vb →
  targetVelocity ws projectToShape noiseFn time (RV a b c) = RV 0 (- vb) 0.
Proof.
  intros Hws Hid Hnoise Htime%fin_timeOrZero Hturb Hflow Hvert.
  destruct (finite_state_inv ws Hws)
    as ((s & Hstr)%is_fin_inv & (df & Hdef)%is_fin_inv & Hkl & Hks & _ & Hdir & _).
  apply normalizeSafe_fin, fin_vec_inv in Hdir as (d1 & d2 & d3 & Hdir).
  destruct (noise_direction noiseFn (RV a b c) _ (timeOrZero time)
              Hnoise (fin_vec_RV a b c) Hkl Htime) as (l1 & l2 & l3 & Hl).
  assert (Htime' : is_fin (timeOrZero time + ndec 100 0)%js = true)
    by (by apply is_fin_inv in Htime as [? ->]).
  destruct (noise_direction noiseFn (RV a b c) _ _
              Hnoise (fin_vec_RV a b c) Hks Htime') as (s1 & s2 & s3 & Hs).
  unfold targetVelocity, v_shape, v_large, v_small, v_direction, v_vertical.
  rewrite Hl, Hs, Hdir, Hturb, Hflow, Hvert, Hstr, Hdef.
  replace (match projectToShape with Some f => f (RV a b c) | None => RV a b c end)
    with (RV a b c) by (destruct projectToShape as [f|]; [by rewrite (Hid f)|done]).
  replace (sub (RV a b c) (RV a b c)) with (RV 0 0 0)
    by (xred; apply RV_eq; ring).
  rewrite (normalizeSafe_origin 0 0 0 norm3_origin).
  xred. rewrite !xdec_int, xdec_tenths. xred. apply RV_eq; ring.
Qed.

(** The velocity after one call in such a field, while the smoothed
    velocity is within the speed limit. *)
Lemma nextVelocity_vertical ws projectToShape noiseFn time q x y z a b c vb :
  finite_state ws = true →
  identity_projector projectToShape →
  finite_noise noiseFn →
  finite_time time = true →
  to_number (ws !! "turbulence") = Fin 0 →
  to_number (ws !! "flowSpeed") = Fin 0 →
  to_number (ws !! "verticalBias") = Fin vb →
  default zero3 (position q) = RV x y z →
  default zero3 (velocity q) = RV a b c →
  norm3 (8 / 10 * a) (8 / 10 * b - 2 / 10 * vb) (8 / 10 * c) <= 5 →
  nextVelocity ws projectToShape noiseFn time q
  = RV (8 / 10 * a) (8 / 10 * b - 2 / 10 * vb) (8 / 10 * c).
Proof.
  intros Hws Hid Hnoise Htime Hturb Hflow Hvert Hpos Hvel Hle.
  unfold nextVelocity. rewrite Hpos, Hvel.
  rewrite (targetVelocity_vertical ws projectToShape noiseFn time x y z vb) by done.
  xred. rewrite !xdec_int, xdec_tenths. xred.
  rewrite <- (clampLength_id _ _ _ Hle). f_equal. apply RV_eq; field.
Qed.

Lemma frames_zero_force ws projectToShape noiseFn time (p w : loc) d :
  finite_state ws = true →
  identity_projector projectToShape →
  finite_noise noiseFn →
  finite_time time = true →
  to_number (ws !! "turbulence") = Fin 0 →
  to_number (ws !! "flowSpeed") = Fin 0 →
  to_number (ws !! "verticalBias") = Fin 0 →
  ∀ n (σ : store xreal) q x y z a b c,
  particles σ !! p = Some q →
  states σ !! w = Some ws →
  default zero3 (position q) = RV x y z →
  default zero3 (velocity q) = RV a b c →
  norm3 a b c <= 5 →
  ∃ σ' q',
    frames n p (Fin d) w projectToShape noiseFn time σ = Some (tt, σ') ∧
    particles σ' !! p = Some q' ∧
    default zero3 (velocity q')
    = RV (a * (8 / 10) ^ n) (b * (8 / 10) ^ n) (c * (8 / 10) ^ n) ∧
    default zero3 (position q')
    = RV (x + a * (4 * (1 - (8 / 10) ^ n) * d))
         (y + b * (4 * (1 - (8 / 10) ^ n) * d))
         (z + c * (4 * (1 - (8 / 10) ^ n) * d)).
Proof.
  intros Hws Hid Hnoise Htime Hturb Hflow Hvert.
  induction n as [|n IH]; intros σ q x y z a b c Hp Hw Hpos Hvel Hle.
  - exists σ, q. split; [done|]. split; [done|]. rewrite Hpos, Hvel.
    split; apply RV_eq; cbn [pow]; field.
  - assert (Hle' : norm3 (8 / 10 * a) (8 / 10 * b - 2 / 10 * 0) (8 / 10 * c) <= 5).
    { replace (8 / 10 * a) with (a * (8 / 10)) by ring.
      replace (8 / 10 * b - 2 / 10 * 0) with (b * (8 / 10)) by ring.
      replace (8 / 10 * c) with (c * (8 / 10)) by ring.
      rewrite norm3_scale by lra. pose proof (norm3_nonneg a b c). lra. }
    pose proof (nextVelocity_vertical ws projectToShape noiseFn time q x y z a b c 0
                  Hws Hid Hnoise Htime Hturb Hflow Hvert Hpos Hvel Hle') as Hv.
    set (σ1 := Store (<[p := nextParticle (Fin d) ws projectToShape noiseFn time q]>
                        (particles σ)) (states σ)).
    destruct (IH σ1 (nextParticle (Fin d) ws projectToShape noiseFn time q)
                (x + 8 / 10 * a * d) (y + (8 / 10 * b - 2 / 10 * 0) * d)
                (z + 8 / 10 * c * d)
                (8 / 10 * a) (8 / 10 * b - 2 / 10 * 0) (8 / 10 * c))
      as (σ' & q' & Hrun & Hq' & Hvel' & Hpos').
    + apply lookup_insert_eq.
    + done.
    + simpl. by rewrite Hv, Hpos.
    + simpl. by rewrite Hv.
    + done.
    + exists σ', q'. split; [|split; [done|]].
      * simpl. unfold mbind, M_bind.
        rewrite (updateParticle_run σ p q w ws) by done. apply Hrun.
      * rewrite Hvel', Hpos'. split; apply RV_eq; cbn [pow]; field.
Qed.


(** The velocity after one call in such a field, whatever the speed. *)
Lemma nextVelocity_still ws projectToShape noiseFn time q x y z a b c :
  finite_state ws = true →
  identity_projector projectToShape →
  finite_noise noiseFn →
  finite_time time = true →
  to_number (ws !! "turbulence") = Fin 0 →
  to_number (ws !! "flowSpeed") = Fin 0 →
  to_number (ws !! "verticalBias") = Fin 0 →
  default zero3 (position q) = RV x y z →
  default zero3 (velocity q) = RV a b c →
  nextVelocity ws projectToShape noiseFn time q
  = clampLength (RV (a * (8 / 10)) (b * (8 / 10)) (c * (8 / 10))) (Fin 0) (Fin 5).
Proof.
  intros Hws Hid Hnoise Htime Hturb Hflow Hvert Hpos Hvel.
  unfold nextVelocity. rewrite Hpos, Hvel.
  rewrite (targetVelocity_vertical ws projectToShape noiseFn time x y z 0) by done.
  xred. rewrite !xdec_int, xdec_tenths. xred. f_equal. apply RV_eq; field.
Qed.

(** The clamp never lengthens a vector. *)
Lemma clampLength_shrinks a b c :
  ∃ a' b' c',
    clampLength (RV a b c) (Fin 0) (Fin 5) = RV a' b' c' ∧
    norm3 a' b' c' <= 5 ∧ norm3 a' b' c' <= norm3 a b c.
Proof.
  destruct (Req_dec_T (norm3 a b c) 0) as [Hn|Hn].
  - exists a, b, c. split; [by apply clampLength_rest|]. lra.
  - eexists _, _, _. split; [by apply clampLength_RV|].
    assert (Hpos : 0 < norm3 a b c) by (pose proof (norm3_nonneg a b c); lra).
    set (m := Rmin (Rmax (norm3 a b c) 0) 5).
    assert (Hm : 0 <= m <= 5 ∧ m <= norm3 a b c).
    { unfold m, Rmin, Rmax. repeat destruct (Rle_dec _ _); lra. }
    rewrite norm3_scale
      by (apply Rmult_le_pos; [lra|left; by apply Rinv_0_lt_compat]).
    replace (norm3 a b c * (m / norm3 a b c)) with m by (field; lra). lra.
Qed.

(** From any finite velocity: the first call brings the speed within
    the limit, and every later call multiplies the velocity by 0.8. *)
Lemma frames_still ws projectToShape noiseFn time (p w : loc) d :
  finite_state ws = true →
  identity_projector projectToShape →
  finite_noise noiseFn →
  finite_time time = true →
  to_number (ws !! "turbulence") = Fin 0 →
  to_number (ws !! "flowSpeed") = Fin 0 →
  to_number (ws !! "verticalBias") = Fin 0 →
  ∀ (σ : store xreal) q x y z a b c,
  particles σ !! p = Some q →
  states σ !! w = Some ws →
  default zero3 (position q) = RV x y z →
  default zero3 (velocity q) = RV a b c →
  ∃ a1 b1 c1,
    norm3 a1 b1 c1 <= 5 ∧ norm3 a1 b1 c1 <= 8 / 10 * norm3 a b c ∧
    ∀ n, ∃ σ' q',
      frames (S n) p (Fin d) w projectToShape noiseFn time σ = Some (tt, σ') ∧
      particles σ' !! p = Some q' ∧
      default zero3 (velocity q')
      = RV (a1 * (8 / 10) ^ n) (b1 * (8 / 10) ^ n) (c1 * (8 / 10) ^ n) ∧
      default zero3 (position q')
      = RV (x + a1 * ((5 - 4 * (8 / 10) ^ n) * d))
           (y + b1 * ((5 - 4 * (8 / 10) ^ n) * d))
           (z + c1 * ((5 - 4 * (8 / 10) ^ n) * d)).
Proof.
  intros Hws Hid Hnoise Htime Hturb Hflow Hvert σ q x y z a b c Hp Hw Hpos Hvel.
  pose proof (nextVelocity_still ws projectToShape noiseFn time q x y z a b c
                Hws Hid Hnoise Htime Hturb Hflow Hvert Hpos Hvel) as Hv.
  destruct (clampLength_shrinks (a * (8 / 10)) (b * (8 / 10)) (c * (8 / 10)))
    as (a1 & b1 & c1 & Hclamp & Hle & Hshrink).
  rewrite Hclamp in Hv.
  exists a1, b1, c1. split; [done|]. split.
  { rewrite norm3_scale in Hshrink by lra. lra. }
  intros n.
  set (q1 := nextParticle (Fin d) ws projectToShape noiseFn time q).
  set (σ1 := Store (<[p := q1]> (particles σ)) (states σ)).
  destruct (frames_zero_force ws projectToShape noiseFn time p w d
              Hws Hid Hnoise Htime Hturb Hflow Hvert n σ1 q1
              (x + a1 * d) (y + b1 * d) (z + c1 * d) a1 b1 c1)
    as (σ' & q' & Hrun & Hq' & Hvel' & Hpos').
  - apply lookup_insert_eq.
  - done.
  - unfold q1, nextParticle. cbn [position default]. by rewrite Hv, Hpos.
  - unfold q1, nextParticle. cbn [velocity default]. by rewrite Hv.
  - done.
  - exists σ', q'. split; [|split; [done|split; [done|]]].
    + cbn [frames]. unfold mbind, M_bind.
      rewrite (updateParticle_run σ p q w ws) by done. apply Hrun.
    + rewrite Hpos'. apply RV_eq; ring.
Qed.


(** C7, amended.  With deformFactor = 1 the weight is shapeStrength times
    zero, so:
    - in exact arithmetic, for a shapeStrength that is a number, a finite
      position and a projector with finite values, the weight is 0 and the
      shape term is [0, 0, 0]; for a shapeStrength that is NaN (or absent)
      the shape term is [NaN, NaN, NaN];
    - in binary64, each component of the shape term is a zero (of either
      sign) when shapeStrength and that component of the normalised
      direction are finite, and is NaN in every other case: for a
      shapeStrength that is NaN or infinite, and for a direction that
      overflowed. *)
Theorem deformed_shape_term :
  (∀ (ws : gmap string (value xreal))
     (projectToShape : option (vec3 xreal → vec3 xreal)) (pos : vec3 xreal) (s : R),
     to_number (ws !! "deformFactor") = ndec 1 0 →
     to_number (ws !! "shapeStrength") = Fin s →
     finite_projector projectToShape →
     fin_vec pos = true →
     (to_number (ws !! "shapeStrength")
      * (ndec 1 0 - clamp01 (to_number (ws !! "deformFactor"))))%js = Fin 0 ∧
     v_shape ws projectToShape pos = RV 0 0 0) ∧
  (∀ (ws : gmap string (value xreal))
     (projectToShape : option (vec3 xreal → vec3 xreal)) (pos : vec3 xreal),
     to_number (ws !! "deformFactor") = ndec 1 0 →
     to_number (ws !! "shapeStrength") = NaN →
     v_shape ws projectToShape pos = Vec3 NaN NaN NaN) ∧
  (∀ (ws : gmap string (value float))
     (projectToShape : option (vec3 float → vec3 float)) (pos : vec3 float),
     to_number (ws !! "deformFactor") = 1%float →
     let s := to_number (ws !! "shapeStrength") in
     let d := normalizeSafe
                (sub match projectToShape with Some f => f pos | None => pos end pos) in
     let v := v_shape ws projectToShape pos in
     (is_zero (v0 v) = is_finite s && is_finite (v0 d) ∧
      is_nan (v0 v) = negb (is_finite s && is_finite (v0 d))) ∧
     (is_zero (v1 v) = is_finite s && is_finite (v1 d) ∧
      is_nan (v1 v) = negb (is_finite s && is_finite (v1 d))) ∧
     (is_zero (v2 v) = is_finite s && is_finite (v2 d) ∧
      is_nan (v2 v) = negb (is_finite s && is_finite (v2 d)))).
Proof.
  split; [|split].
  - intros ws projectToShape pos s Hd Hs Hproj Hpos.
    assert (Hw : (to_number (ws !! "shapeStrength")
                  * (ndec 1 0 - clamp01 (to_number (ws !! "deformFactor"))))%js = Fin 0).
    { rewrite Hd, Hs. xred. rewrite !xdec_int. xred. f_equal.
      rewrite Rmax_right by lra. rewrite Rmin_left by lra. ring. }
    split; [done|]. unfold v_shape. rewrite Hw.
    assert (Hdir : fin_vec (normalizeSafe
              (sub match projectToShape with Some f => f pos | None => pos end pos)) = true).
    { apply normalizeSafe_fin, fin_sub; [|done].
      destruct projectToShape as [f|]; [by apply (Hproj f)|done]. }
    apply fin_vec_inv in Hdir as (d1 & d2 & d3 & ->). xred. apply RV_eq; ring.
  - intros ws projectToShape pos Hd Hs. unfold v_shape. rewrite Hd, Hs.
    destruct (normalizeSafe _) as [[d1|] [d2|] [d3|]]; reflexivity.
  - intros ws projectToShape pos Hd. cbv zeta. unfold v_shape. rewrite Hd.
    unfold mulScalar. cbn [v0 v1 v2 nmul nsub float_number].
    change (ndec 1 0 : float) with 1%float.
    change (clamp01 1%float) with (fmin 1 (fmax 0 1)).
    repeat split; apply shape_component_binary64.
Qed.

(** C8, amended.  A call of updateParticle stores as life the life before
    (1.0 when the particle has none) minus dt / max(lifeSpan, 0.0001), as
    the arithmetic computes this difference and this quotient.
    - In binary64 the divisor is 0.0001 for a lifeSpan of at most 0.0001
      (zero and the negative numbers included), lifeSpan above that, and
      NaN for a lifeSpan that is NaN; it is never zero.
    - In exact arithmetic the divisor is at least 0.0001 and, for finite
      life, lifeSpan and dt, the new life is the finite number
      life - dt / max(lifeSpan, 0.0001).
    - From life = 1 with lifeSpan = 2 and dt = 1 the life is 0.5, in
      binary64 as in exact arithmetic. *)
Theorem life_decay :
  (∀ (N : Type) (HN : JsNumber N) (σ : store N) (p : loc) (q : particle N) (w : loc)
     (ws : gmap string (value N)) (dt : N) projectToShape noiseFn time,
     particles σ !! p = Some q →
     states σ !! w = Some ws →
     ∃ σ' q',
       updateParticle p dt w projectToShape noiseFn time σ = Some (tt, σ') ∧
       particles σ' !! p = Some q' ∧
       life q' = Some (default (ndec 1 0) (life q)
                       - dt / nmax (to_number (ws !! "lifeSpan")) (ndec 1 4))%js) ∧
  (∀ L : float,
     nmax L (ndec 1 4)
     = (if is_nan L then nan else if (L <=? ndec 1 4)%float then ndec 1 4 else L) ∧
     is_zero (nmax L (ndec 1 4)) = false) ∧
  (∀ l L d : R,
     (Fin l - Fin d / nmax (Fin L) (ndec 1 4))%js = Fin (l - d / Rmax L (1 / 10000)) ∧
     1 / 10000 <= Rmax L (1 / 10000)) ∧
  (life <$> particleAfter 1%positive
     (updateParticle 1%positive 1%float 1%positive None None None)
     (scene restingParticle slowState)) = Some (Some 0x1p-1%float) ∧
  (life <$> particleAfter 1%positive
     (updateParticle 1%positive (Fin 1) 1%positive None None None)
     (scene restingParticle slowState)) = Some (Some (Fin (1 / 2))).
Proof.
  split; [|split; [|split; [|split]]].
  - intros N HN σ p q w ws dt projectToShape noiseFn time Hp Hw.
    eexists _, _. split; [by apply updateParticle_run|]. cbn [particles].
    split; [apply lookup_insert_eq|]. reflexivity.
  - intros L. cbn [nmax float_number].
    assert (E : fmax L (ndec 1 4)
                = if is_nan L then nan else if (L <=? ndec 1 4)%float then ndec 1 4 else L)
      by (by apply fmax_floor).
    split; [done|]. rewrite E.
    destruct (is_nan L) eqn:Hn; [done|].
    destruct (L <=? ndec 1 4)%float eqn:Hle; [done|].
    rewrite is_zero_spec. revert Hle. rewrite FloatAxioms.leb_spec.
    change (Prim2SF (ndec 1 4)) with (S754_finite false 7378697629483821 (-66)).
    by destruct (Prim2SF L) as [s0|s0| |s0 m0 e0].
  - intros l L d. pose proof (Rmax_r L (1 / 10000)) as Hfloor. split; [|done].
    xred. rewrite xdec_floor. xred. rewrite xdiv_Fin by lra. done.
  - vm_compute. reflexivity.
  - rewrite (particleAfter_run _ 1%positive restingParticle 1%positive slowState)
      by apply lookup_singleton_eq.
    cbn [fmap option_fmap option_map nextParticle life restingParticle default].
    do 2 f_equal.
    change (to_number (slowState !! "lifeSpan")) with (ndec 2 0 : xreal).
    xred. rewrite !xdec_int, xdec_floor. xred.
    rewrite xdiv_Fin by (pose proof (Rmax_r 2 (1 / 10000)); lra).
    unfold Datatypes.id. xred. f_equal. rewrite Rmax_left by lra. field.
Qed.

(** C3, amended.  applyMapping returns a state that holds, field by
    field:
    - for a field named in the config, other than __proto__, whose rule
      {from, min, max} names an own property x of inputs:
      min + (max - min) * clamp01(x);
    - the value of the base object when inputs[from] is undefined, that
      is, when from is neither an own property of inputs nor a name that
      inputs inherits from Object.prototype;
    - for such an inherited name (constructor, toString, ...), which is
      not undefined: min + (max - min) * clamp01(NaN), which is NaN in
      binary64;
    - nothing for the field name __proto__ that the base object does not
      own;
    - the value of the base object for a field that the config does not
      name; so the base object itself with an empty config; and the base
      object is the default state when no baseline is passed.
    And clamp01 clamps to [0, 1]: it is 0 for x <= 0, 1 for x >= 1, x in
    between and NaN for NaN, in binary64 as in exact arithmetic. *)
Theorem applyMapping_fields :
  (∀ (N : Type) (HN : JsNumber N) (inputs : gmap string N)
     (config : gmap string (rule N)) (baseState : option loc) (σ : store N)
     (o : gmap string (value N)),
     baseObject σ baseState = Some o →
     ∃ w σ' o',
       applyMapping inputs config baseState σ = Some (w, σ') ∧
       states σ' !! w = Some o' ∧
       (∀ key cfg t, config !! key = Some cfg → inputs !! cfg_from cfg = Some t →
          key ≠ "__proto__" ∨ is_Some (o !! key) →
          o' !! key
          = Some (VNum (cfg_min cfg + (cfg_max cfg - cfg_min cfg) * clamp01 t)%js)) ∧
       (∀ key cfg, config !! key = Some cfg → inputs !! cfg_from cfg = None →
          cfg_from cfg ∉ objectPrototype → o' !! key = o !! key) ∧
       (∀ key cfg, config !! key = Some cfg → inputs !! cfg_from cfg = None →
          cfg_from cfg ∈ objectPrototype →
          key ≠ "__proto__" ∨ is_Some (o !! key) →
          o' !! key
          = Some (VNum (cfg_min cfg
                        + (cfg_max cfg - cfg_min cfg) * clamp01 nNaN)%js)) ∧
       (o !! "__proto__" = None → o' !! "__proto__" = None) ∧
       (∀ key, config !! key = None → o' !! key = o !! key) ∧
       (config = ∅ → o' = o) ∧
       (baseState = None → o = defaultWeatherState)) ∧
  (∀ x : float,
     clamp01 x
     = if is_nan x then nan
       else if (x <=? 0)%float then 0%float
       else if (1 <=? x)%float then 1%float else x) ∧
  (∀ a b : float, (a + (b - a) * clamp01 nNaN)%js = nan) ∧
  clamp01 NaN = NaN ∧
  (∀ x : R, ∃ c,
     clamp01 (Fin x) = Fin c ∧ 0 <= c <= 1 ∧
     (x <= 0 → c = 0) ∧ (1 <= x → c = 1) ∧ (0 <= x <= 1 → c = x)).
Proof.
  split; [|split; [|split; [|split]]].
  - intros N HN inputs config baseState σ o. apply applyMapping_lookup.
  - intros x. apply clamp01_binary64.
  - intros a b. change (clamp01 (nNaN : float)) with nan.
    cbn [nadd nmul nsub float_number]. by rewrite fmul_nan_r, fadd_nan_r.
  - reflexivity.
  - intros x. exists (Rmin 1 (Rmax 0 x)). split.
    + xred. by rewrite !xdec_int.
    + unfold Rmin, Rmax. repeat destruct (Rle_dec _ _); repeat split; intros; lra.
Qed.

(** C9: normalizeSafe of a vector of length zero is the zero vector: in
    binary64 for [0, 0, 0], whose result has no NaN; in exact arithmetic
    for every vector of length zero, and there a finite vector never gives
    a NaN; and in both the division is the branch of a length that is not
    zero. *)
Theorem normalizeSafe_zero_length :
  normalizeSafe (Vec3 0%float 0%float 0%float) = Vec3 0%float 0%float 0%float ∧
  (∀ a b c, norm3 a b c = 0 → normalizeSafe (RV a b c) = RV 0 0 0) ∧
  (∀ v : vec3 xreal, fin_vec v = true → fin_vec (normalizeSafe v) = true) ∧
  (∀ N (HN : JsNumber N) (v : vec3 N),
     normalizeSafe v
     = if nis_zero (length v) then zero3
       else Vec3 (v0 v / length v)%js (v1 v / length v)%js (v2 v / length v)%js).
Proof.
  split; [by vm_compute|]. split; [apply normalizeSafe_origin|].
  split; [apply normalizeSafe_fin|]. done.
Qed.


(** C4: a particle at the origin and at rest, the default state with
    verticalBias = 10 (no shape, turbulence or flow term), dt = 0.1: one
    call gives the velocity [0, -2, 0] and the position [0, -0.2, 0], in
    binary64 as in exact arithmetic. *)
Theorem rain_first_frame :
  (∃ q : particle float,
     particleAfter 1%positive
       (updateParticle 1%positive (ndec 1 1) 1%positive None None None)
       (scene restingParticle rainState) = Some q ∧
     velocity q = Some (Vec3 0%float (-2)%float 0%float) ∧
     position q = Some (Vec3 0%float (- ndec 2 1)%js 0%float)) ∧
  ∃ q : particle xreal,
    particleAfter 1%positive
      (updateParticle 1%positive (ndec 1 1) 1%positive None None None)
      (scene restingParticle rainState) = Some q ∧
    velocity q = Some (RV 0 (-2) 0) ∧
    position q = Some (RV 0 (- (2 / 10)) 0).
Proof.
  split.
  { eexists. split; [vm_compute; reflexivity|]. split; reflexivity. }
  eexists. split.
  { apply particleAfter_run; apply lookup_singleton_eq. }
  assert (Hv : nextVelocity rainState None None None (@restingParticle xreal _)
               = RV 0 (-2) 0).
  { rewrite (nextVelocity_vertical rainState None None None restingParticle
               0 0 0 0 0 0 10).
    - apply RV_eq; field.
    - reflexivity.
    - intros f [=].
    - intros f [=].
    - reflexivity.
    - apply xdec_int.
    - apply xdec_int.
    - apply xdec_int.
    - apply zero3_RV.
    - apply zero3_RV.
    - unfold norm3.
      replace (8 / 10 * 0 * (8 / 10 * 0)
               + (8 / 10 * 0 - 2 / 10 * 10) * (8 / 10 * 0 - 2 / 10 * 10)
               + 8 / 10 * 0 * (8 / 10 * 0)) with (2 * 2) by field.
      rewrite sqrt_square; lra. }
  unfold nextParticle. cbn [velocity position]. rewrite Hv. split; [done|].
  f_equal. cbn [restingParticle position default]. rewrite zero3_RV. xred.
  rewrite xdec_tenths. xred. apply RV_eq; field.
Qed.

End Exact.

(** ** The properties at concrete scenes *)

Section Witnesses.
Local Open Scope R_scope.


Lemma updateParticle_absent_fields_witness :
  particleAfter 1%positive
    (updateParticle 1%positive (ndec 1 1) 1%positive (Some eastProjector)
       (Some northNoise) None)
    (scene driftingParticle (delete "flowDirection" rainState))
  = particleAfter 1%positive
      (updateParticle 1%positive (ndec 1 1) 1%positive (Some eastProjector)
         (Some northNoise) None)
      (withState (scene driftingParticle (delete "flowDirection" rainState))
         1%positive
         (<["flowDirection" := VVec zero3]> (delete "flowDirection" rainState)))
  :> option (particle float).
Proof.
  destruct (updateParticle_absent_fields
              (scene driftingParticle (delete "flowDirection" rainState))
              1%positive driftingParticle 1%positive
              (delete "flowDirection" rainState) (ndec 1 1)
              (Some eastProjector) (Some northNoise) None)
    as (_ & _ & Habsent & _).
  - reflexivity.
  - reflexivity.
  - apply Habsent. reflexivity.
Defined.

Lemma applyMapping_fields_witness :
  ∃ w σ' o',
    applyMapping stormInputs RAINY_MAPPING (Some 1%positive)
      (scene restingParticle defaultWeatherState) = Some (w, σ') ∧
    states σ' !! w = Some o' ∧
    o' !! "verticalBias" = Some (VNum 40%float) ∧
    o' !! "deformFactor" = Some (VNum 0%float) ∧
    o' !! "flowSpeed" = Some (VNum 0%float).
Proof.
  destruct applyMapping_fields as (Hfields & _).
  destruct (Hfields float float_number stormInputs RAINY_MAPPING (Some 1%positive)
              (scene restingParticle defaultWeatherState) defaultWeatherState)
    as (w & σ' & o' & Hrun & Hw & Hset & Hskip & _ & _ & Hkeep & _).
  - reflexivity.
  - exists w, σ', o'. split; [exact Hrun|]. split; [exact Hw|]. split; [|split].
    + rewrite (Hset "verticalBias" (Rule "precipitation" (ndec 10 0) (ndec 40 0))
                 (ndec 2 0)); [vm_compute; reflexivity|reflexivity|reflexivity|].
      left. discriminate.
    + rewrite (Hskip "deformFactor" (Rule "humidity" (ndec 0 0) (ndec 1 0)));
        [vm_compute; reflexivity|reflexivity|reflexivity|].
      apply (bool_decide_unpack _). vm_compute. exact I.
    + rewrite (Hkeep "flowSpeed") by reflexivity. vm_compute. reflexivity.
Defined.

Lemma applyMapping_keeps_baseline_witness :
  ∃ w σ',
    applyMapping stormInputs RAINY_MAPPING (Some 1%positive)
      (scene restingParticle defaultWeatherState) = Some (w, σ') ∧
    w ≠ 1%positive ∧
    states (scene restingParticle defaultWeatherState) !! w = None ∧
    states σ' !! w = Some (mappedState stormInputs RAINY_MAPPING defaultWeatherState) ∧
    states σ' !! 1%positive = Some (defaultWeatherState : gmap string (value float)) ∧
    (∀ b', is_Some (states (scene restingParticle defaultWeatherState) !! b') →
           states σ' !! b' = states (scene restingParticle defaultWeatherState) !! b') ∧
    particles σ' = particles (scene restingParticle defaultWeatherState).
Proof.
  apply (applyMapping_keeps_baseline stormInputs RAINY_MAPPING 1%positive
           (scene restingParticle defaultWeatherState) defaultWeatherState).
  reflexivity.
Defined.


Lemma deformed_shape_term_witness :
  v_shape meltedState (Some eastProjector) (RV 1 2 3) = RV 0 0 0.
Proof.
  destruct deformed_shape_term as (Hexact & _).
  apply (Hexact meltedState (Some eastProjector) (RV 1 2 3) (IZR 7 / 10 ^ 0)).
  - reflexivity.
  - reflexivity.
  - intros f [= <-] pos (a & b & c & ->)%fin_vec_inv. reflexivity.
  - reflexivity.
Defined.

Lemma life_decay_witness :
  ∃ σ' q',
    updateParticle 1%positive (Fin 1) 1%positive None None None
      (scene restingParticle slowState) = Some (tt, σ') ∧
    particles σ' !! 1%positive = Some q' ∧
    life q' = Some (Fin (1 - 1 / Rmax 2 (1 / 10000))).
Proof.
  destruct life_decay as (Hcall & _ & Hexact & _).
  destruct (Hcall xreal xreal_number (scene restingParticle slowState) 1%positive
              restingParticle 1%positive slowState (Fin 1) None None None)
    as (σ' & q' & Hrun & Hq' & Hl).
  - reflexivity.
  - reflexivity.
  - exists σ', q'. split; [exact Hrun|]. split; [exact Hq'|]. rewrite Hl. f_equal.
    change (default (ndec 1 0) (life restingParticle)) with (Fin (IZR 1 / 10 ^ 0)).
    change (to_number (slowState !! "lifeSpan")) with (Fin (IZR 2 / 10 ^ 0)).
    destruct (Hexact (IZR 1 / 10 ^ 0) (IZR 2 / 10 ^ 0) 1) as [-> _]. f_equal.
    cbn [pow]. replace (2 / 1) with 2 by field. replace (1 / 1) with 1 by field.
    reflexivity.
Defined.

Lemma updateParticle_frame_witness :
  ∃ σ' q',
    updateParticle 1%positive (ndec 1 1) 1%positive (Some eastProjector)
      (Some northNoise) None (scene driftingParticle rainState) = Some (tt, σ') ∧
    states σ' = states (scene driftingParticle rainState) ∧
    (∀ p', p' ≠ 1%positive →
       particles σ' !! p' = particles (scene driftingParticle rainState) !! p') ∧
    particles σ' !! 1%positive = Some q' ∧
    tags q' = tags (driftingParticle : particle float) ∧
    is_Some (position q') ∧ is_Some (velocity q') ∧ is_Some (life q').
Proof.
  apply (updateParticle_frame (scene driftingParticle rainState) 1%positive
           driftingParticle 1%positive rainState).
  - reflexivity.
  - reflexivity.
Defined.


(** On finite inputs whose sum overflows, the length of the smoothed
    velocity is infinite, the quotient 5 / length is zero, and the
    velocity is [0, NaN, 0]. *)
Example speed_limit_overflow_binary64 :
  finite_vec64 (or_zero_vec (galeState !! "flowDirection")) = true ∧
  is_finite (to_number (galeState !! "flowSpeed")) = true ∧
  is_finite (to_number (galeState !! "verticalBias")) = true ∧
  ∃ (q : particle float) (v : vec3 float),
    particleAfter 1%positive
      (updateParticle 1%positive (ndec 1 1) 1%positive None None None)
      (scene restingParticle galeState) = Some q ∧
    velocity q = Some v ∧
    v0 v = 0%float ∧ is_nan (v1 v) = true ∧ v2 v = 0%float.
Proof.
  split; [reflexivity|]. split; [reflexivity|]. split; [reflexivity|].
  eexists _, _. split; [vm_compute; reflexivity|]. split; [reflexivity|].
  repeat split; vm_compute; reflexivity.
Qed.

(** C3, as stated, fails for two names.  The name constructor is not in
    the inputs, and yet the rule is not skipped: its field is NaN, not the
    value 1 of the baseline.  And the field __proto__ that a rule names is
    not written, although its input is there. *)
Lemma applyMapping_inherited_names :
  (∃ w σ' (o' : gmap string (value float)),
     applyMapping ∅ constructorConfig None (scene restingParticle defaultWeatherState)
     = Some (w, σ') ∧
     states σ' !! w = Some o' ∧
     (∅ : gmap string float) !! "constructor" = None ∧
     defaultWeatherState !! "brightness" = Some (VNum 1%float) ∧
     o' !! "brightness" = Some (VNum nan)) ∧
  (∃ w σ' (o' : gmap string (value float)),
     applyMapping stormInputs protoConfig None (scene restingParticle defaultWeatherState)
     = Some (w, σ') ∧
     states σ' !! w = Some o' ∧
     stormInputs !! "precipitation" = Some 2%float ∧
     o' !! "__proto__" = None).
Proof.
  split; eexists _, _, _; (split; [vm_compute; reflexivity|]);
    (split; [reflexivity|]); repeat split; vm_compute; reflexivity.
Qed.


(** C7, as stated, fails in binary64.  With deformFactor = 1 and the
    default shapeStrength 1, a finite position and a finite target whose
    difference overflows, the shape term has a NaN; and with an infinite
    shapeStrength the shape term is [NaN, NaN, NaN]. *)
Lemma shape_term_not_zero :
  (finite_vec64 farPosition = true ∧
   finite_vec64 (farProjector farPosition) = true ∧
   is_nan (v0 (v_shape (<["deformFactor" := VNum 1%float]> defaultWeatherState)
                 (Some farProjector) farPosition)) = true) ∧
  v_shape rigidState (Some eastProjector) (Vec3 1%float 2%float 3%float)
  = Vec3 nan nan nan.
Proof. repeat split; vm_compute; reflexivity. Qed.

(** C8, as stated, fails in binary64.  With lifeSpan = 0 and the finite
    dt = 2^1023 the quotient dt / 0.0001 is infinite and the life is
    -Infinity; and with dt = 0.1 and lifeSpan = 1 the life goes from 1 to
    0.9, which is not 0.1 less: the difference 1 - 0.9 is below 0.1. *)
Lemma life_decrement_overflows :
  (is_finite 0x1p1023%float = true ∧
   life <$> particleAfter 1%positive
     (updateParticle 1%positive 0x1p1023%float 1%positive None None None)
     (scene restingParticle instantState) = Some (Some neg_infinity)) ∧
  (∃ l : float,
     life <$> particleAfter 1%positive
       (updateParticle 1%positive (ndec 1 1) 1%positive None None None)
       (scene restingParticle defaultWeatherState) = Some (Some l) ∧
     (1 - l =? ndec 1 1)%float = false ∧ (1 - l <? ndec 1 1)%float = true).
Proof.
  split; [split; vm_compute; reflexivity|].
  eexists. split; [vm_compute; reflexivity|]. split; vm_compute; reflexivity.
Qed.

(** C2, as stated, fails: without verticalBias, whose default is 0, the
    velocity of a resting particle becomes NaN, where the default state
    leaves it at rest. *)
Lemma absent_verticalBias_not_defaulted :
  defaultWeatherState !! "verticalBias" = Some (VNum 0%float) ∧
  particleAfter 1%positive
    (updateParticle 1%positive (ndec 1 1) 1%positive None None None)
    (scene restingParticle (delete "verticalBias" defaultWeatherState))
  ≠ particleAfter 1%positive
      (updateParticle 1%positive (ndec 1 1) 1%positive None None None)
      (scene restingParticle (defaultWeatherState : gmap string (value float))).
Proof.
  split; [reflexivity|]. intros Heq.
  apply (f_equal (λ o : option (particle float),
                    match o with
                    | Some q => match velocity q with
                                | Some v => is_nan (v1 v)
                                | None => false
                                end
                    | None => false
                    end)) in Heq.
  vm_compute in Heq. discriminate.
Qed.

(** *** Binary64 runs *)

(** In binary64, 1 - 0.2 is the number that the literal 0.8 denotes. *)
Example smoothing_factor_binary64 : (ndec 1 0 - ndec 2 1)%float = ndec 8 1.
Proof. reflexivity. Qed.

(** The decimal literals of the engine, as binary64 reads them. *)
Example literals_binary64 :
  (ndec 2 1 : float) = 0x1.999999999999ap-3%float ∧
  (ndec 1 4 : float) = 0x1.a36e2eb1c432dp-14%float ∧
  (ndec 5 1 : float) = 0x1p-1%float ∧
  (ndec 3 1 : float) = 0x1.3333333333333p-2%float.
Proof. repeat split; reflexivity. Qed.

(** life = 1, lifeSpan = 2, dt = 1: the life is 0.5 after one call; and
    with lifeSpan = 0 it is 1 - 1 / 0.0001 = -9999, a finite number. *)
Example life_decay_binary64 :
  (life <$> particleAfter 1%positive
     (updateParticle 1%positive 1%float 1%positive None None None)
     (scene restingParticle slowState)) = Some (Some 0x1p-1%float) ∧
  (life <$> particleAfter 1%positive
     (updateParticle 1%positive 1%float 1%positive None None None)
     (scene restingParticle (<["lifeSpan" := VNum 0%float]> defaultWeatherState)))
  = Some (Some (-9999)%float).
Proof. split; vm_compute; reflexivity. Qed.

(** An input of 2 with the rule {min: 0, max: 10} gives 10, an input of -1
    gives 0: the input is clamped, not the output. *)
Example mappedField_clamps_binary64 :
  mappedField {[ "x" := 2%float ]} (Rule "x" 0%float 10%float) = Some (VNum 10%float) ∧
  mappedField {[ "x" := (-1)%float ]} (Rule "x" 0%float 10%float) = Some (VNum 0%float) ∧
  mappedField {[ "x" := 0x1p-1%float ]} (Rule "x" 10%float 0%float) = Some (VNum 5%float).
Proof. repeat split; vm_compute; reflexivity. Qed.

(** With deformFactor = 1 and shapeStrength = 7 the shape term is
    [0, 0, 0] in binary64 too, though the projector pulls along x. *)
Example shape_term_binary64 :
  v_shape meltedState (Some eastProjector) (Vec3 1%float 2%float 3%float)
  = Vec3 0%float 0%float 0%float.
Proof. vm_compute. reflexivity. Qed.

(** A particle drifting at [3, 0, 0] in the default state: binary64 stores
    the velocity [3 * 0.8, 0, 0]. *)
Example drift_first_frame_binary64 :
  (velocity <$> particleAfter 1%positive
     (updateParticle 1%positive (ndec 1 1) 1%positive None (Some northNoise) None)
     (scene driftingParticle defaultWeatherState))
  = Some (Some (Vec3 (3 * (1 - ndec 2 1))%float 0%float 0%float)).
Proof. vm_compute. reflexivity. Qed.

(** A vector too short for binary64 to square, and the vector of negative
    zeros, also have length zero and normalise to [0, 0, 0]. *)
Example normalizeSafe_underflow_binary64 :
  normalizeSafe (Vec3 0x1p-600%float 0%float 0%float) = Vec3 0%float 0%float 0%float ∧
  normalizeSafe (Vec3 (-0)%float (-0)%float (-0)%float) = Vec3 0%float 0%float 0%float ∧
  normalizeSafe (Vec3 3%float 0%float 4%float)
  = Vec3 (3 / 5)%float 0%float (4 / 5)%float.
Proof. repeat split; vm_compute; reflexivity. Qed.

End Witnesses.

(** ** Choosing the scene *)

Section Scene_choice.

Lemma prefix_app (word s : string) :
  String.prefix word s = true ↔ ∃ b, s = word +:+ b.
Proof.
  revert s. induction word as [|c word IH]; intros s.
  - split; [intros _; by exists s|intros _; by destruct s].
  - destruct s as [|c' s]; simpl.
    + split; [done|intros [b [=]]].
    + destruct (Ascii.ascii_dec c c') as [->|Hne].
      * rewrite IH. split; intros [b Hb]; exists b; [by rewrite Hb|by injection Hb].
      * split; [done|intros [b [= ? _]]; done].
Qed.

Lemma includes_occurs (word s : string) : includes word s = true ↔ occurs word s.
Proof.
  induction s as [|c s IH].
  - change (includes word "") with (String.prefix word "" || false).
    rewrite orb_true_iff, prefix_app. split.
    + intros [[b Hb]|[=]]. by exists "", b.
    + intros (a & b & Hab). left. destruct a; [by exists b|done].
  - change (includes word (String c s))
      with (String.prefix word (String c s) || includes word s).
    rewrite orb_true_iff, prefix_app, IH. split.
    + intros [[b Hb]|(a & b & Hab)]; [by exists "", b|].
      exists (String c a), b. simpl. by rewrite Hab.
    + intros (a & b & Hab). destruct a as [|c' a]; [left; by exists b|].
      right. exists a, b. by injection Hab.
Qed.

Lemma test_occurs (words : list string) (s : string) :
  test words s = false ↔ ∀ word, word ∈ words → ¬ occurs word s.
Proof.
  unfold test. split.
  - intros Hf word Hin Hocc. apply includes_occurs in Hocc.
    assert (existsb (λ w, includes w s) words = true); [|congruence].
    apply existsb_exists. exists word. split; [by apply list_elem_of_In|done].
  - intros Hno. destruct (existsb _ words) eqn:He; [|done].
    apply existsb_exists in He as (word & Hin%list_elem_of_In & Hinc).
    destruct (Hno word Hin). by apply includes_occurs.
Qed.

Lemma categoryOf_cases (it : condition) :
  categoryOf it ∈ ["SNOW"; "RAIN"; "CLOUDY"; "SUNNY"; "WINDY"].
Proof.
  unfold categoryOf. repeat (case_match; [set_solver|]). set_solver.
Qed.

Lemma buildCodeCategoryMap_snoc (l : list condition) (it : condition) :
  buildCodeCategoryMap (l ++ [it])
  = <[cond_code it := categoryOf it]> (buildCodeCategoryMap l).
Proof. unfold buildCodeCategoryMap. by rewrite foldl_app. Qed.

Lemma codeMap_lookup (l : list condition) (c : option Z) :
  buildCodeCategoryMap l !! c
  = categoryOf <$> last (filter (λ it, cond_code it = c) l).
Proof.
  induction l as [|it l IH] using rev_ind; [done|].
  rewrite buildCodeCategoryMap_snoc, filter_app, filter_cons, filter_nil.
  destruct (decide (cond_code it = c)) as [<-|Hne].
  - by rewrite lookup_insert_eq, last_snoc.
  - by rewrite lookup_insert_ne, app_nil_r.
Qed.

Lemma buildCodeCategoryMap_entry (l : list condition) (c : option Z) (cat : string) :
  buildCodeCategoryMap l !! c = Some cat →
  ∃ it, it ∈ l ∧ cond_code it = c ∧ categoryOf it = cat.
Proof.
  rewrite codeMap_lookup. intros Hl.
  destruct (last _) as [it|] eqn:Hlast; [|done]. injection Hl as <-.
  apply last_Some_elem_of, list_elem_of_filter in Hlast as [Hc Hin]. eauto.
Qed.

Lemma codeMap_by_code (l : list condition) (c : option Z) (cat : string) :
  buildCodeCategoryMap l !! c = Some cat →
  (cat = "WINDY" ∨ cat = "SUNNY") →
  c = Some (if decide (cat = "WINDY") then 1087 else 1000)%Z ∧
  ∃ it, it ∈ l ∧ cond_code it = c ∧
    ∀ word, word ∈ snowWords ++ rainWords ++ cloudWords →
            ¬ occurs word (conditionText it).
Proof.
  intros (it & Hin & <- & Hcat)%buildCodeCategoryMap_entry Hws.
  unfold categoryOf in Hcat.
  destruct (test snowWords _) eqn:Hsnow; [destruct Hws; congruence|].
  destruct (test rainWords _) eqn:Hrain; [destruct Hws; congruence|].
  destruct (test cloudWords _) eqn:Hcloud; [destruct Hws; congruence|].
  rewrite test_occurs in Hsnow, Hrain, Hcloud.
  split.
  - repeat case_decide; subst; try done; destruct Hws; congruence.
  - exists it. repeat split; [done|].
    intros word. rewrite !elem_of_app. intros [?|[?|?]]; eauto.
Qed.

Lemma buildCodeCategoryMap_cases (l : list condition) (c : option Z) (cat : string) :
  buildCodeCategoryMap l !! c = Some cat →
  cat ∈ ["SNOW"; "RAIN"; "CLOUDY"; "SUNNY"; "WINDY"].
Proof.
  intros (it & _ & _ & <-)%buildCodeCategoryMap_entry. apply categoryOf_cases.
Qed.

Lemma strOr_category (l : list condition) (c : option Z) :
  strOr (buildCodeCategoryMap l !! c) "CLOUDY"
  = default "CLOUDY" (buildCodeCategoryMap l !! c).
Proof.
  destruct (buildCodeCategoryMap l !! c) as [cat|] eqn:Hl; [|done]. simpl.
  apply buildCodeCategoryMap_cases in Hl.
  rewrite decide_False; [done|]. intros ->. set_solver.
Qed.

(** X16: classifyCategory gives one of the five categories; a code that no
    entry of the list has, the missing code included, is CLOUDY; and it
    rejects when the list of conditions cannot be loaded. *)
Theorem classifyCategory_total (l : list condition) (data : weather) :
  classifyCategory None data = None ∧
  ∃ c,
    classifyCategory (Some l) data = Some c ∧
    code c = weather_code data ∧
    category c ∈ ["SNOW"; "RAIN"; "CLOUDY"; "SUNNY"; "WINDY"] ∧
    category c = default "CLOUDY" (buildCodeCategoryMap l !! weather_code data) ∧
    ((∀ it, it ∈ l → cond_code it ≠ weather_code data) → category c = "CLOUDY").
Proof.
  split; [done|]. eexists. split; [done|]. simpl. split; [done|].
  rewrite strOr_category.
  destruct (buildCodeCategoryMap l !! weather_code data) as [cat|] eqn:Hl; simpl.
  - split; [by eapply buildCodeCategoryMap_cases|]. split; [done|].
    intros Hno. apply buildCodeCategoryMap_entry in Hl as (it & Hin & Hc & _).
    by destruct (Hno it Hin).
  - split; [set_solver|done].
Qed.

Lemma decideModeFromWeather_loaded (l : list condition) (data : weather) :
  decideModeFromWeather (Some l) (Some data)
  = let cat := default "CLOUDY" (buildCodeCategoryMap l !! weather_code data) in
    if decide (cat = "SNOW") then "snowy"
    else if decide (cat = "RAIN") then "rainy"
    else if decide (cat = "SUNNY") then "sunny"
    else "cloudy".
Proof.
  unfold decideModeFromWeather, classifyCategory. simpl. rewrite strOr_category.
  repeat case_decide; done.
Qed.

(** X17: loadWeatherModule imports, for the mode that
    decideModeFromWeather decides, one of the four scenes, the one of that
    name.  With weather data and the list of conditions, the category that
    the list gives the code of the data decides: SNOW the snowy scene, RAIN
    the rainy one, SUNNY the sunny one, every other one (WINDY too) the
    cloudy one; so the sunny scene is only loaded for code 1000.  Without
    weather data, or when the conditions cannot be loaded, it is the cloudy
    scene. *)
Theorem decided_module (conditions : option (list condition))
    (weatherData : option weather) :
  let mode := decideModeFromWeather conditions weatherData in
  loadWeatherModule mode = "./" +:+ mode +:+ ".js" ∧
  mode ∈ ["snowy"; "rainy"; "sunny"; "cloudy"] ∧
  (∀ l data cat, conditions = Some l → weatherData = Some data →
     buildCodeCategoryMap l !! weather_code data = Some cat →
     mode = if decide (cat = "SNOW") then "snowy"
            else if decide (cat = "RAIN") then "rainy"
            else if decide (cat = "SUNNY") then "sunny"
            else "cloudy") ∧
  (mode ≠ "cloudy" →
     ∃ l data, conditions = Some l ∧ weatherData = Some data ∧
               is_Some (buildCodeCategoryMap l !! weather_code data)) ∧
  (mode = "sunny" → ∃ data, weatherData = Some data ∧ weather_code data = Some 1000%Z).
Proof.
  intros mode. unfold mode. clear mode.
  destruct weatherData as [data|], conditions as [l|];
    try (split; [done|]; split; [set_solver|]; split; [done|]; split; done).
  rewrite decideModeFromWeather_loaded.
  destruct (buildCodeCategoryMap l !! weather_code data) as [cat|] eqn:Hl; simpl.
  - pose proof (buildCodeCategoryMap_cases _ _ _ Hl) as Hcases.
    assert (Hsunny : cat = "SUNNY" → weather_code data = Some 1000%Z).
    { intros ->.
      by destruct (codeMap_by_code l (weather_code data) "SUNNY" Hl) as [-> _];
        [right|]. }
    split; [|split; [|split; [|split]]].
    + unfold loadWeatherModule. repeat case_decide; done.
    + repeat case_decide; set_solver.
    + intros l' data' cat' [= <-] [= <-] Hl'. rewrite Hl in Hl'. by injection Hl' as <-.
    + intros _. exists l, data. rewrite Hl. eauto.
    + intros Hmode. exists data. split; [done|]. apply Hsunny.
      repeat case_decide; done.
  - split; [done|]. split; [set_solver|]. split; [|split; [done|done]].
    intros l' data' cat' [= <-] [= <-] Hl'. congruence.
Qed.

(** X14: the map of buildCodeCategoryMap gives a code the category of the
    last entry of the list that has this code, and nothing to a code that
    no entry has. *)
Theorem buildCodeCategoryMap_last_entry (l : list condition) (c : option Z) :
  buildCodeCategoryMap l !! c
  = categoryOf <$> last (filter (λ it, cond_code it = c) l) ∧
  (buildCodeCategoryMap l !! c = None ↔ ∀ it, it ∈ l → cond_code it ≠ c) ∧
  (∀ it, buildCodeCategoryMap (l ++ [it]) !! cond_code it = Some (categoryOf it)).
Proof.
  split; [apply codeMap_lookup|]. split.
  - rewrite codeMap_lookup, fmap_None, last_None. split.
    + intros Hnil it Hin Hc.
      assert (it ∈ filter (λ it, cond_code it = c) l) as Hf
        by (by apply list_elem_of_filter).
      rewrite Hnil in Hf. by apply elem_of_nil in Hf.
    + intros Hno. destruct (filter _ l) as [|it f] eqn:Hf; [done|].
      assert (it ∈ filter (λ it, cond_code it = c) l) as [Hc Hin]%list_elem_of_filter
        by (rewrite Hf; left).
      by destruct (Hno it Hin).
  - intros it. rewrite buildCodeCategoryMap_snoc. apply lookup_insert_eq.
Qed.

(** X15: a code is only mapped to WINDY when it is 1087, and to SUNNY when
    it is 1000, by an entry in whose texts none of the words of the three
    tests occurs; so an entry whose text has the word thunder never makes
    its code WINDY. *)
Theorem categories_by_code (l : list condition) (c : option Z) (cat : string) :
  buildCodeCategoryMap l !! c = Some cat →
  (cat = "WINDY" ∨ cat = "SUNNY") →
  c = Some (if decide (cat = "WINDY") then 1087 else 1000)%Z ∧
  ∃ it, it ∈ l ∧ cond_code it = c ∧
    (∀ word, word ∈ snowWords ++ rainWords ++ cloudWords →
             ¬ occurs word (conditionText it)) ∧
    ¬ occurs "thunder" (conditionText it).
Proof.
  intros Hl Hcat.
  destruct (codeMap_by_code l c cat Hl Hcat) as (Hc & it & Hin & Hit & Hnone).
  split; [done|]. exists it. repeat split; [done|done|done|].
  apply Hnone. unfold snowWords, rainWords, cloudWords. set_solver.
Qed.

Lemma categories_by_code_witness :
  Some 1087%Z = Some (if decide ("WINDY" = "WINDY") then 1087 else 1000)%Z ∧
  ∃ it, it ∈ [thunderyOutbreaks; sunnyClear; gusts] ∧
    cond_code it = Some 1087%Z ∧
    (∀ word, word ∈ snowWords ++ rainWords ++ cloudWords →
             ¬ occurs word (conditionText it)) ∧
    ¬ occurs "thunder" (conditionText it).
Proof.
  apply (categories_by_code [thunderyOutbreaks; sunnyClear; gusts] (Some 1087%Z) "WINDY").
  - vm_compute. reflexivity.
  - left. reflexivity.
Defined.

(** The entry of conditions.json for code 1087, which the comment in the
    source takes for the WINDY one, is RAIN: its text has the word
    thunder. *)
Example thundery_outbreaks_is_rain :
  buildCodeCategoryMap [sunnyClear; thunderyOutbreaks; blowingSnow] !! Some 1087%Z
  = Some "RAIN" ∧
  loadWeatherModule
    (decideModeFromWeather (Some [sunnyClear; thunderyOutbreaks; blowingSnow])
       (Some (Weather (Some 1087%Z) (Some "Thundery outbreaks possible"))))
  = "./rainy.js".
Proof. split; vm_compute; reflexivity. Qed.

End Scene_choice.

(** ** Frames *)

Section Frames.
Context {N : Type} `{JsNumber N}.
Local Open Scope js_scope.

Lemma frames_run (n : nat) (p w : loc) (ws : gmap string (value N)) (dt : N)
    projectToShape noiseFn time :
  ∀ (σ : store N) q,
  particles σ !! p = Some q →
  states σ !! w = Some ws →
  frames n p dt w projectToShape noiseFn time σ
  = Some (tt, Store (<[p := Nat.iter n (nextParticle dt ws projectToShape noiseFn time) q]>
                       (particles σ)) (states σ)).
Proof.
  induction n as [|n IH]; intros σ q Hp Hw.
  - simpl. rewrite insert_id by done. by destruct σ.
  - cbn [frames]. unfold mbind, M_bind.
    rewrite (updateParticle_run σ p q w ws) by done.
    rewrite (IH _ (nextParticle dt ws projectToShape noiseFn time q));
      [|apply lookup_insert_eq|done].
    cbn [particles states]. by rewrite insert_insert_eq, Nat.iter_succ_r.
Qed.

(** X10: a particle that lacks its position, its velocity or its life is
    updated as the particle at the origin, at rest, with the life 1 that
    the fallbacks make of it: the two calls leave the same store. *)
Theorem updateParticle_uninitialised (σ : store N) (p : loc) (q : particle N)
    (w : loc) (ws : gmap string (value N)) (dt : N) projectToShape noiseFn time :
  particles σ !! p = Some q →
  states σ !! w = Some ws →
  updateParticle p dt w projectToShape noiseFn time σ
  = updateParticle p dt w projectToShape noiseFn time (withParticle σ p (initialised q)).
Proof.
  intros Hp Hw.
  rewrite (updateParticle_run σ p q w ws) by done.
  rewrite (updateParticle_run (withParticle σ p (initialised q)) p (initialised q) w ws);
    [|apply lookup_insert_eq|done].
  cbn [withParticle particles states]. by rewrite insert_insert_eq.
Qed.

(** X11: with projectors and noise fields that are pure functions, as
    the model has them, the updates of two different particles commute:
    updateParticle reads and writes no other particle than its own. *)
Theorem updateParticle_commute (σ : store N) (p1 p2 : loc) (q1 q2 : particle N)
    (w1 w2 : loc) (ws1 ws2 : gmap string (value N)) (dt1 dt2 : N)
    proj1 proj2 noise1 noise2 time1 time2 :
  p1 ≠ p2 →
  particles σ !! p1 = Some q1 →
  particles σ !! p2 = Some q2 →
  states σ !! w1 = Some ws1 →
  states σ !! w2 = Some ws2 →
  (updateParticle p1 dt1 w1 proj1 noise1 time1;;
   updateParticle p2 dt2 w2 proj2 noise2 time2) σ
  = (updateParticle p2 dt2 w2 proj2 noise2 time2;;
     updateParticle p1 dt1 w1 proj1 noise1 time1) σ.
Proof.
  intros Hne Hp1 Hp2 Hw1 Hw2. unfold mbind, M_bind.
  rewrite (updateParticle_run σ p1 q1 w1 ws1), (updateParticle_run σ p2 q2 w2 ws2)
    by done.
  rewrite (updateParticle_run _ p2 q2 w2 ws2);
    [|by cbn [particles]; rewrite lookup_insert_ne|done].
  rewrite (updateParticle_run _ p1 q1 w1 ws1);
    [|by cbn [particles]; rewrite lookup_insert_ne|done].
  cbn [particles states]. by rewrite insert_insert_ne.
Qed.

(** X3: a scene that maps from one baseline in every frame, and writes on
    the state it got (its flowDirection, say), starts every frame afresh:
    the state of the next frame has the baseline with the rules applied to
    the inputs of that frame, whatever the frame before and the write; and
    the baseline is as it was. *)
Theorem applyMapping_every_frame (inputs1 inputs2 : gmap string N)
    (config : gmap string (rule N)) (b : loc) (σ : store N)
    (o : gmap string (value N)) (key : string) (v : value N) :
  states σ !! b = Some o →
  ∃ w1 σ1 σ1' w2 σ2,
    applyMapping inputs1 config (Some b) σ = Some (w1, σ1) ∧
    setField w1 key v σ1 = Some (tt, σ1') ∧
    applyMapping inputs2 config (Some b) σ1' = Some (w2, σ2) ∧
    w2 ≠ w1 ∧
    states σ2 !! w2 = Some (mappedState inputs2 config o) ∧
    states σ2 !! w1 = Some (<[key := v]> (mappedState inputs1 config o)) ∧
    states σ2 !! b = Some o.
Proof.
  intros Hb.
  destruct (applyMapping_run inputs1 config (Some b) σ o Hb)
    as (w1 & σ1 & Hrun1 & Hfresh1 & _ & Hw1 & Hother1).
  assert (Hbw1 : b ≠ w1) by congruence.
  assert (Hb1 : states σ1 !! b = Some o) by (rewrite Hother1; eauto).
  set (σ1' := Store (particles σ1)
                (<[w1 := <[key := v]> (mappedState inputs1 config o)]> (states σ1))).
  assert (Hset : setField w1 key v σ1 = Some (tt, σ1')).
  { unfold setField. by rewrite Hw1. }
  assert (Hb1' : states σ1' !! b = Some o).
  { cbn [σ1' states]. by rewrite lookup_insert_ne. }
  assert (Hw1' : states σ1' !! w1 = Some (<[key := v]> (mappedState inputs1 config o))).
  { cbn [σ1' states]. apply lookup_insert_eq. }
  destruct (applyMapping_run inputs2 config (Some b) σ1' o Hb1')
    as (w2 & σ2 & Hrun2 & Hfresh2 & _ & Hw2 & Hother2).
  assert (Hw21 : w1 ≠ w2) by congruence.
  exists w1, σ1, σ1', w2, σ2.
  split; [done|]. split; [done|]. split; [done|]. split; [done|]. split; [done|].
  assert (Hbw2 : b ≠ w2) by congruence.
  split; (rewrite Hother2; [done|done|eauto]).
Qed.

End Frames.

(** ** More of the engine, in exact arithmetic *)

Section Exact_engine.
Local Open Scope R_scope.

Ltac xred :=
  cbn [nadd nsub nmul ndiv nneg nsqrt nmin nmax nis_zero ntruthy nNaN ndec
       xreal_number xlift2 xneg add sub mulScalar mixVec clamp01 v0 v1 v2 RV
       is_fin fin_vec andb].

(** X1: a rule [{from, min, max}] whose input is a number x gives its
    field a value between min and max, in whichever order they are: min for
    x <= 0, max for x >= 1 and min + (max - min) * x in between.  The one
    field that the assignment does not create is __proto__: where the
    baseline owns no property of that name, the state owns none either. *)
Theorem applyMapping_range (inputs : gmap string xreal)
    (config : gmap string (rule xreal)) (baseState : option loc)
    (σ : store xreal) (o : gmap string (value xreal))
    (key from : string) (a b x : R) :
  baseObject σ baseState = Some o →
  config !! key = Some (Rule from (Fin a) (Fin b)) →
  inputs !! from = Some (Fin x) →
  ∃ w σ' o' v,
    applyMapping inputs config baseState σ = Some (w, σ') ∧
    states σ' !! w = Some o' ∧
    (key ≠ "__proto__" ∨ is_Some (o !! key) →
       o' !! key = Some (VNum (Fin v))) ∧
    (key = "__proto__" → o !! key = None → o' !! key = None) ∧
    Rmin a b <= v <= Rmax a b ∧
    (x <= 0 → v = a) ∧ (1 <= x → v = b) ∧
    (0 <= x <= 1 → v = a + (b - a) * x).
Proof.
  intros Ho Hc Hi.
  destruct (applyMapping_lookup inputs config baseState σ o Ho)
    as (w & σ' & o' & Hrun & Hw & Hown & _ & _ & Hproto & _).
  exists w, σ', o', (a + (b - a) * Rmin 1 (Rmax 0 x)).
  split; [done|]. split; [done|]. split.
  { intros Hk. rewrite (Hown key _ (Fin x) Hc Hi Hk).
    cbn [cfg_from cfg_min cfg_max]. xred. by rewrite !xdec_int. }
  split; [by intros ->|].
  unfold Rmin, Rmax. repeat destruct (Rle_dec _ _); repeat split; intros; nra.
Qed.

(** X2: an input that is NaN is not an absent input: the rule writes NaN
    over the value of the baseline.  The one field that the assignment does
    not create is __proto__: where the baseline owns no property of that
    name, the state owns none either. *)
Theorem applyMapping_NaN_input (inputs : gmap string xreal)
    (config : gmap string (rule xreal)) (baseState : option loc)
    (σ : store xreal) (o : gmap string (value xreal))
    (key : string) (cfg : rule xreal) :
  baseObject σ baseState = Some o →
  config !! key = Some cfg →
  inputs !! cfg_from cfg = Some NaN →
  ∃ w σ' o',
    applyMapping inputs config baseState σ = Some (w, σ') ∧
    states σ' !! w = Some o' ∧
    (key ≠ "__proto__" ∨ is_Some (o !! key) → o' !! key = Some (VNum NaN)) ∧
    (key = "__proto__" → o !! key = None → o' !! key = None).
Proof.
  intros Ho Hc Hi.
  destruct (applyMapping_lookup inputs config baseState σ o Ho)
    as (w & σ' & o' & Hrun & Hw & Hown & _ & _ & Hproto & _).
  exists w, σ', o'.
  split; [done|]. split; [done|]. split; [|by intros ->].
  intros Hk. rewrite (Hown key cfg NaN Hc Hi Hk). xred.
  by destruct (cfg_min cfg), (cfg_max cfg).
Qed.

(** X4: normalizeSafe makes of a finite vector that is not zero the
    vector of length 1 with its direction, and normalising twice is
    normalising once. *)
Theorem normalizeSafe_unit_vector (a b c : R) :
  norm3 a b c ≠ 0 →
  ∃ a' b' c',
    normalizeSafe (RV a b c) = RV a' b' c' ∧
    norm3 a' b' c' = 1 ∧
    a = a' * norm3 a b c ∧ b = b' * norm3 a b c ∧ c = c' * norm3 a b c ∧
    normalizeSafe (RV a' b' c') = RV a' b' c'.
Proof.
  intros Hn.
  assert (Hpos : 0 < norm3 a b c) by (pose proof (norm3_nonneg a b c); lra).
  assert (H1 : norm3 (a / norm3 a b c) (b / norm3 a b c) (c / norm3 a b c) = 1).
  { unfold Rdiv. rewrite norm3_scale; [by apply Rinv_r|].
    left. by apply Rinv_0_lt_compat. }
  eexists _, _, _. split; [by apply normalizeSafe_unit|]. split; [done|].
  split; [field; lra|]. split; [field; lra|]. split; [field; lra|].
  rewrite normalizeSafe_unit by lra. rewrite H1. apply RV_eq; field; lra.
Qed.

Lemma clampLength_scaled a b c lo hi :
  norm3 a b c ≠ 0 →
  clampLength (RV a b c) (Fin lo) (Fin hi)
  = RV (a * (Rmin (Rmax (norm3 a b c) lo) hi / norm3 a b c))
       (b * (Rmin (Rmax (norm3 a b c) lo) hi / norm3 a b c))
       (c * (Rmin (Rmax (norm3 a b c) lo) hi / norm3 a b c)).
Proof.
  intros Hn. unfold clampLength. rewrite length_RV. xred.
  unfold xis_zero. destruct (Req_dec_T (norm3 a b c) 0); [done|].
  by rewrite xdiv_Fin.
Qed.

(** X5: for 0 <= minLen <= maxLen, clampLength rescales a finite vector
    that is not zero to the length clamped to [minLen, maxLen], keeping
    its direction, and leaves it as it is when its length is in the
    interval; the zero vector is returned as it is, also when minLen is
    more than 0. *)
Theorem clampLength_clamps (a b c lo hi : R) :
  0 <= lo → lo <= hi →
  (norm3 a b c = 0 → clampLength (RV a b c) (Fin lo) (Fin hi) = RV a b c) ∧
  (norm3 a b c ≠ 0 →
   ∃ k, 0 <= k ∧
     clampLength (RV a b c) (Fin lo) (Fin hi) = RV (a * k) (b * k) (c * k) ∧
     norm3 (a * k) (b * k) (c * k) = Rmin (Rmax (norm3 a b c) lo) hi ∧
     lo <= norm3 (a * k) (b * k) (c * k) <= hi ∧
     (lo <= norm3 a b c <= hi → k = 1)).
Proof.
  intros Hlo Hhi. split.
  - intros Hn. unfold clampLength. rewrite length_RV, Hn. xred.
    unfold xis_zero. by destruct (Req_dec_T 0 0).
  - intros Hn.
    assert (Hpos : 0 < norm3 a b c) by (pose proof (norm3_nonneg a b c); lra).
    set (m := Rmin (Rmax (norm3 a b c) lo) hi).
    assert (Hm : lo <= m <= hi).
    { unfold m, Rmin, Rmax. repeat destruct (Rle_dec _ _); lra. }
    assert (Hk : 0 <= m / norm3 a b c).
    { apply Rmult_le_pos; [lra|]. left. by apply Rinv_0_lt_compat. }
    assert (Hlen : norm3 (a * (m / norm3 a b c)) (b * (m / norm3 a b c))
                     (c * (m / norm3 a b c)) = m).
    { rewrite norm3_scale by done. field. lra. }
    exists (m / norm3 a b c). split; [done|]. split; [by apply clampLength_scaled|].
    split; [done|]. split; [by rewrite Hlen|].
    intros Hin. unfold m. rewrite Rmax_left by lra. rewrite Rmin_left by lra.
    field. lra.
Qed.

(** X6: the global drift has the direction of flowDirection and the
    length of flowSpeed: a flowDirection that is not a unit vector is
    normalised, and scaling it by a positive factor changes nothing. *)
Theorem v_direction_normalised (ws ws' : gmap string (value xreal)) (a b c s k : R) :
  or_zero_vec (ws !! "flowDirection") = RV a b c →
  to_number (ws !! "flowSpeed") = Fin s →
  norm3 a b c ≠ 0 →
  0 < k →
  or_zero_vec (ws' !! "flowDirection") = RV (a * k) (b * k) (c * k) →
  to_number (ws' !! "flowSpeed") = Fin s →
  v_direction ws = RV (a / norm3 a b c * s) (b / norm3 a b c * s) (c / norm3 a b c * s) ∧
  norm3 (a / norm3 a b c * s) (b / norm3 a b c * s) (c / norm3 a b c * s) = Rabs s ∧
  v_direction ws' = v_direction ws.
Proof.
  intros Hd Hs Hn Hk Hd' Hs'.
  assert (Hpos : 0 < norm3 a b c) by (pose proof (norm3_nonneg a b c); lra).
  assert (Hv : v_direction ws
               = RV (a / norm3 a b c * s) (b / norm3 a b c * s) (c / norm3 a b c * s)).
  { unfold v_direction. rewrite Hd, Hs, normalizeSafe_unit by done. reflexivity. }
  split; [done|]. split.
  - rewrite norm3_scale_abs. unfold Rdiv. rewrite norm3_scale.
    + rewrite Rinv_r by done. ring.
    + left. by apply Rinv_0_lt_compat.
  - rewrite Hv. unfold v_direction. rewrite Hd', Hs'.
    assert (Hn' : norm3 (a * k) (b * k) (c * k) = norm3 a b c * k)
      by (apply norm3_scale; lra).
    rewrite normalizeSafe_unit by (rewrite Hn'; nra).
    rewrite Hn'. xred. apply RV_eq; field; lra.
Qed.

(** *** One frame and many *)

Lemma nextVelocity_limited ws projectToShape noiseFn time (q : particle xreal) :
  finite_particle q = true →
  finite_state ws = true →
  finite_projector projectToShape →
  finite_noise noiseFn →
  finite_time time = true →
  ∃ a b c, nextVelocity ws projectToShape noiseFn time q = RV a b c ∧ norm3 a b c <= 5.
Proof.
  intros (Hpos & Hvel & _)%finite_particle_inv Hws Hproj Hnoise Htime.
  pose proof (fin_targetVelocity ws projectToShape noiseFn time _
                Hws Hproj Hnoise Htime Hpos) as Htgt.
  assert (Hmix : fin_vec (mixVec (default zero3 (velocity q))
                   (targetVelocity ws projectToShape noiseFn time
                      (default zero3 (position q))) (ndec 2 1)) = true)
    by (by apply fin_mixVec).
  apply fin_vec_inv in Hmix as (a & b & c & Hmix).
  destruct (clampLength_bound a b c) as (a' & b' & c' & Hclamp & Hle).
  exists a', b', c'. split; [|done].
  unfold nextVelocity. rewrite Hmix. xred. by rewrite !xdec_int.
Qed.

Lemma nextParticle_finite (d : R) ws projectToShape noiseFn time (q : particle xreal) :
  finite_particle q = true →
  finite_state ws = true →
  finite_projector projectToShape →
  finite_noise noiseFn →
  finite_time time = true →
  finite_particle (nextParticle (Fin d) ws projectToShape noiseFn time q) = true.
Proof.
  intros Hq Hws Hproj Hnoise Htime.
  destruct (nextVelocity_limited ws projectToShape noiseFn time q Hq Hws Hproj Hnoise Htime)
    as (a & b & c & Hv & _).
  destruct (finite_particle_inv q Hq)
    as ((x & y & z & Hpos)%fin_vec_inv & _ & (l & Hl)%is_fin_inv).
  destruct (finite_state_inv ws Hws) as (_ & _ & _ & _ & _ & _ & _ & _ & (L & HL)%is_fin_inv).
  unfold finite_particle, nextParticle. cbn [position velocity life].
  rewrite Hv, Hpos, Hl, HL. xred. rewrite xdec_floor. xred.
  rewrite xdiv_Fin; [done|]. pose proof (Rmax_r L (1 / 10000)). lra.
Qed.

(** X7: in one call a particle moves by the velocity it is left with
    times dt, so by at most 5 * |dt|. *)
Theorem updateParticle_displacement (σ : store xreal) (p : loc) (q : particle xreal)
    (w : loc) (ws : gmap string (value xreal)) (d : R) projectToShape noiseFn time :
  particles σ !! p = Some q →
  states σ !! w = Some ws →
  finite_particle q = true →
  finite_state ws = true →
  finite_projector projectToShape →
  finite_noise noiseFn →
  finite_time time = true →
  ∃ σ' q' x y z vx vy vz,
    updateParticle p (Fin d) w projectToShape noiseFn time σ = Some (tt, σ') ∧
    particles σ' !! p = Some q' ∧
    default zero3 (position q) = RV x y z ∧
    velocity q' = Some (RV vx vy vz) ∧
    position q' = Some (RV (x + vx * d) (y + vy * d) (z + vz * d)) ∧
    norm3 (vx * d) (vy * d) (vz * d) <= 5 * Rabs d.
Proof.
  intros Hp Hw Hq Hws Hproj Hnoise Htime.
  destruct (nextVelocity_limited ws projectToShape noiseFn time q Hq Hws Hproj Hnoise Htime)
    as (a & b & c & Hv & Hle).
  destruct (finite_particle_inv q Hq) as ((x & y & z & Hpos)%fin_vec_inv & _).
  exists (withParticle σ p (nextParticle (Fin d) ws projectToShape noiseFn time q)),
    (nextParticle (Fin d) ws projectToShape noiseFn time q), x, y, z, a, b, c.
  split; [by apply updateParticle_run|]. split; [apply lookup_insert_eq|].
  split; [done|]. unfold nextParticle. cbn [velocity position]. rewrite Hv, Hpos.
  split; [done|]. split; [done|].
  rewrite norm3_scale_abs. pose proof (Rabs_pos d). nra.
Qed.

Lemma frames_finite (n : nat) (d : R) ws projectToShape noiseFn time (q : particle xreal) :
  finite_particle q = true →
  finite_state ws = true →
  finite_projector projectToShape →
  finite_noise noiseFn →
  finite_time time = true →
  finite_particle (Nat.iter n (nextParticle (Fin d) ws projectToShape noiseFn time) q)
  = true.
Proof.
  intros Hq Hws Hproj Hnoise Htime. induction n as [|n IH]; [done|].
  rewrite Nat.iter_succ. by apply nextParticle_finite.
Qed.

(** X8: the speed limit is an invariant of a scene: after every number
    of frames, on finite inputs, the particle is finite, and from the
    first frame on its speed is at most 5. *)
Theorem frames_speed_limit (n : nat) (σ : store xreal) (p : loc) (q : particle xreal)
    (w : loc) (ws : gmap string (value xreal)) (d : R) projectToShape noiseFn time :
  particles σ !! p = Some q →
  states σ !! w = Some ws →
  finite_particle q = true →
  finite_state ws = true →
  finite_projector projectToShape →
  finite_noise noiseFn →
  finite_time time = true →
  ∃ σ' q' a b c,
    frames (S n) p (Fin d) w projectToShape noiseFn time σ = Some (tt, σ') ∧
    particles σ' !! p = Some q' ∧
    finite_particle q' = true ∧
    velocity q' = Some (RV a b c) ∧ norm3 a b c <= 5.
Proof.
  intros Hp Hw Hq Hws Hproj Hnoise Htime.
  pose proof (frames_finite n d ws projectToShape noiseFn time q
                Hq Hws Hproj Hnoise Htime) as Hn.
  destruct (nextVelocity_limited ws projectToShape noiseFn time _ Hn Hws Hproj Hnoise Htime)
    as (a & b & c & Hv & Hle).
  eexists _, _, a, b, c. split; [by apply frames_run|]. cbn [particles].
  split; [apply lookup_insert_eq|]. split.
  - by apply (frames_finite (S n)).
  - rewrite Nat.iter_succ. unfold nextParticle at 1. cbn [velocity]. by rewrite Hv.
Qed.

Lemma frames_life (n : nat) (d L l : R) ws projectToShape noiseFn time (q : particle xreal) :
  default (ndec 1 0) (life q) = Fin l →
  to_number (ws !! "lifeSpan") = Fin L →
  default (ndec 1 0)
    (life (Nat.iter n (nextParticle (Fin d) ws projectToShape noiseFn time) q))
  = Fin (l - INR n * (d / Rmax L (1 / 10000))).
Proof.
  intros Hl HL. induction n as [|n IH].
  - change (Nat.iter 0 _ q) with q. rewrite Hl.
    replace (l - INR 0 * (d / Rmax L (1 / 10000))) with l by (simpl; ring). done.
  - rewrite Nat.iter_succ. unfold nextParticle at 1. cbn [life default].
    rewrite IH, HL. xred. rewrite xdec_floor. xred.
    rewrite xdiv_Fin by (pose proof (Rmax_r L (1 / 10000)); lra).
    rewrite S_INR.
    replace (l - (INR n + 1) * (d / Rmax L (1 / 10000)))
      with (l - INR n * (d / Rmax L (1 / 10000)) - d / Rmax L (1 / 10000)) by ring.
    done.
Qed.

(** X9: n frames of length dt take n * dt / max(lifeSpan, 0.0001) from the
    life of a particle, whatever the projector and the noise; so with
    dt > 0 the life goes down in every frame and is 0 or less as soon as
    n * dt reaches life * max(lifeSpan, 0.0001). *)
Theorem frames_life_decay (n : nat) (σ : store xreal) (p : loc) (q : particle xreal)
    (w : loc) (ws : gmap string (value xreal)) (d L l : R) projectToShape noiseFn time :
  particles σ !! p = Some q →
  states σ !! w = Some ws →
  default (ndec 1 0) (life q) = Fin l →
  to_number (ws !! "lifeSpan") = Fin L →
  ∃ σ' q',
    frames n p (Fin d) w projectToShape noiseFn time σ = Some (tt, σ') ∧
    particles σ' !! p = Some q' ∧
    default (ndec 1 0) (life q') = Fin (l - INR n * (d / Rmax L (1 / 10000))) ∧
    (0 < d → (0 < n)%nat → l - INR n * (d / Rmax L (1 / 10000)) < l) ∧
    (0 < d → l * Rmax L (1 / 10000) <= INR n * d →
     l - INR n * (d / Rmax L (1 / 10000)) <= 0).
Proof.
  intros Hp Hw Hl HL.
  assert (HM : 0 < Rmax L (1 / 10000)) by (pose proof (Rmax_r L (1 / 10000)); lra).
  eexists _, _. split; [by apply frames_run|]. cbn [particles].
  split; [apply lookup_insert_eq|]. split; [by apply frames_life|]. split.
  - intros Hd Hn. apply lt_INR in Hn. simpl in Hn.
    assert (0 < d / Rmax L (1 / 10000)) by (by apply Rdiv_lt_0_compat). nra.
  - intros Hd Hdead.
    replace (INR n * (d / Rmax L (1 / 10000)))
      with (INR n * d / Rmax L (1 / 10000)) by (field; lra).
    apply (Rmult_le_compat_r (/ Rmax L (1 / 10000))) in Hdead;
      [|left; by apply Rinv_0_lt_compat].
    rewrite Rmult_assoc, Rinv_r, Rmult_1_r in Hdead by lra.
    unfold Rdiv. lra.
Qed.

(** *** Falling *)

Lemma norm3_axis y : norm3 0 y 0 = Rabs y.
Proof.
  unfold norm3. replace (0 * 0 + y * y + 0 * 0) with (Rsqr y) by (unfold Rsqr; ring).
  apply sqrt_Rsqr_abs.
Qed.

Lemma smoothing_within_limit a b c vb :
  norm3 a b c <= 5 → Rabs vb <= 5 →
  norm3 (8 / 10 * a) (8 / 10 * b - 2 / 10 * vb) (8 / 10 * c) <= 5.
Proof.
  intros Hv Hvb. apply norm3_le_iff in Hv; [|lra]. apply norm3_le_iff; [lra|].
  assert (Hvb' : -5 <= vb <= 5) by (unfold Rabs in Hvb; destruct (Rcase_abs vb); lra).
  pose proof (Rle_0_sqr (b + vb)) as H1. unfold Rsqr in H1.
  nra.
Qed.

Lemma frames_vertical (n : nat) (d vb : R) ws projectToShape noiseFn time
    (q : particle xreal) x y z a b c :
  finite_state ws = true →
  identity_projector projectToShape →
  finite_noise noiseFn →
  finite_time time = true →
  to_number (ws !! "turbulence") = Fin 0 →
  to_number (ws !! "flowSpeed") = Fin 0 →
  to_number (ws !! "verticalBias") = Fin vb →
  Rabs vb <= 5 →
  default zero3 (position q) = RV x y z →
  default zero3 (velocity q) = RV a b c →
  norm3 a b c <= 5 →
  let qn := Nat.iter n (nextParticle (Fin d) ws projectToShape noiseFn time) q in
  default zero3 (velocity qn)
  = RV (a * (8 / 10) ^ n) (- vb + (b + vb) * (8 / 10) ^ n) (c * (8 / 10) ^ n) ∧
  norm3 (a * (8 / 10) ^ n) (- vb + (b + vb) * (8 / 10) ^ n) (c * (8 / 10) ^ n) <= 5 ∧
  ∃ x' y' z', default zero3 (position qn) = RV x' y' z'.
Proof.
  intros Hws Hid Hnoise Htime Hturb Hflow Hvert Hvb Hpos Hvel Hle.
  induction n as [|n (IHv & IHle & x' & y' & z' & IHpos)].
  - cbn zeta. change (Nat.iter 0 _ q) with q. rewrite Hvel.
    replace (a * (8 / 10) ^ 0) with a by (cbn [pow]; ring).
    replace (- vb + (b + vb) * (8 / 10) ^ 0) with b by (cbn [pow]; ring).
    replace (c * (8 / 10) ^ 0) with c by (cbn [pow]; ring).
    split; [done|]. split; [done|]. eauto.
  - cbn zeta in *. rewrite Nat.iter_succ.
    set (qn := Nat.iter n _ q) in *.
    pose proof (smoothing_within_limit _ _ _ vb IHle Hvb) as Hle'.
    pose proof (nextVelocity_vertical ws projectToShape noiseFn time qn x' y' z' _ _ _ vb
                  Hws Hid Hnoise Htime Hturb Hflow Hvert IHpos IHv Hle') as Hv.
    assert (E1 : a * (8 / 10) ^ S n = 8 / 10 * (a * (8 / 10) ^ n)) by (cbn [pow]; ring).
    assert (E2 : - vb + (b + vb) * (8 / 10) ^ S n
                 = 8 / 10 * (- vb + (b + vb) * (8 / 10) ^ n) - 2 / 10 * vb)
      by (cbn [pow]; field).
    assert (E3 : c * (8 / 10) ^ S n = 8 / 10 * (c * (8 / 10) ^ n)) by (cbn [pow]; ring).
    rewrite E1, E2, E3. unfold nextParticle. cbn [velocity position default].
    rewrite Hv, IHpos. split; [done|]. split; [done|]. xred. eauto.
Qed.

(** X12: with the identity projector, no turbulence, no flow and a
    verticalBias of at most 5, the velocity of a particle within the speed
    limit tends to the terminal velocity [0, -verticalBias, 0]: what
    separates them is multiplied by 0.8 in every frame. *)
Theorem terminal_velocity (n : nat) (σ : store xreal) (p : loc) (q : particle xreal)
    (w : loc) (ws : gmap string (value xreal)) (d vb : R) projectToShape noiseFn time
    (x y z a b c : R) :
  particles σ !! p = Some q →
  states σ !! w = Some ws →
  finite_state ws = true →
  identity_projector projectToShape →
  finite_noise noiseFn →
  finite_time time = true →
  to_number (ws !! "turbulence") = ndec 0 0 →
  to_number (ws !! "flowSpeed") = ndec 0 0 →
  to_number (ws !! "verticalBias") = Fin vb →
  Rabs vb <= 5 →
  default zero3 (position q) = RV x y z →
  default zero3 (velocity q) = RV a b c →
  norm3 a b c <= 5 →
  ∃ σ' q' a' b' c',
    frames n p (Fin d) w projectToShape noiseFn time σ = Some (tt, σ') ∧
    particles σ' !! p = Some q' ∧
    default zero3 (velocity q') = RV a' b' c' ∧
    a' = a * (8 / 10) ^ n ∧
    b' - - vb = (b - - vb) * (8 / 10) ^ n ∧
    c' = c * (8 / 10) ^ n ∧
    norm3 a' (b' - - vb) c' = (8 / 10) ^ n * norm3 a (b - - vb) c.
Proof.
  intros Hp Hw Hws Hid Hnoise Htime Hturb Hflow Hvert Hvb Hpos Hvel Hle.
  cbn [ndec xreal_number] in Hturb, Hflow. rewrite xdec_int in Hturb, Hflow.
  destruct (frames_vertical n d vb ws projectToShape noiseFn time q x y z a b c
              Hws Hid Hnoise Htime Hturb Hflow Hvert Hvb Hpos Hvel Hle)
    as (Hv & _ & _).
  eexists _, _, _, _, _. split; [by apply frames_run|]. cbn [particles].
  split; [apply lookup_insert_eq|]. split; [exact Hv|].
  split; [done|]. split; [ring|]. split; [done|].
  replace (- vb + (b + vb) * (8 / 10) ^ n - - vb) with ((b - - vb) * (8 / 10) ^ n) by ring.
  rewrite norm3_scale by (apply pow_le; lra). ring.
Qed.

Lemma nextVelocity_falling ws projectToShape noiseFn time (q : particle xreal)
    x y z s vb :
  finite_state ws = true →
  identity_projector projectToShape →
  finite_noise noiseFn →
  finite_time time = true →
  to_number (ws !! "turbulence") = Fin 0 →
  to_number (ws !! "flowSpeed") = Fin 0 →
  to_number (ws !! "verticalBias") = Fin vb →
  default zero3 (position q) = RV x y z →
  default zero3 (velocity q) = RV 0 (- s) 0 →
  5 <= 8 / 10 * s + 2 / 10 * vb →
  nextVelocity ws projectToShape noiseFn time q = RV 0 (- 5) 0.
Proof.
  intros Hws Hid Hnoise Htime Hturb Hflow Hvert Hpos Hvel Hm.
  unfold nextVelocity. rewrite Hpos, Hvel.
  rewrite (targetVelocity_vertical ws projectToShape noiseFn time x y z vb) by done.
  xred. rewrite !xdec_int, xdec_tenths. xred.
  set (m := 8 / 10 * s + 2 / 10 * vb) in *.
  replace (mixVec (RV 0 (- s) 0) (RV 0 (- vb) 0) (Fin (2 / 10)))
    with (RV 0 (- m) 0) by (apply RV_eq; unfold m; field).
  assert (Hn : norm3 0 (- m) 0 = m).
  { rewrite norm3_axis, Rabs_Ropp. apply Rabs_pos_eq. lra. }
  rewrite clampLength_RV by (rewrite Hn; lra). rewrite Hn.
  rewrite Rmax_left by lra. rewrite Rmin_right by done.
  apply RV_eq; field; lra.
Qed.

Lemma frames_falling (n : nat) (d vb s : R) ws projectToShape noiseFn time
    (q : particle xreal) x y z :
  finite_state ws = true →
  identity_projector projectToShape →
  finite_noise noiseFn →
  finite_time time = true →
  to_number (ws !! "turbulence") = Fin 0 →
  to_number (ws !! "flowSpeed") = Fin 0 →
  to_number (ws !! "verticalBias") = Fin vb →
  5 <= vb →
  default zero3 (position q) = RV x y z →
  default zero3 (velocity q) = RV 0 (- s) 0 →
  5 <= 8 / 10 * s + 2 / 10 * vb →
  let qn := Nat.iter (S n) (nextParticle (Fin d) ws projectToShape noiseFn time) q in
  velocity qn = Some (RV 0 (- 5) 0) ∧
  position qn = Some (RV x (y - 5 * d * INR (S n)) z).
Proof.
  intros Hws Hid Hnoise Htime Hturb Hflow Hvert Hvb Hpos Hvel Hm. cbn zeta.
  induction n as [|n [IHv IHp]].
  - change (Nat.iter 1 ?f q) with (f q). unfold nextParticle. cbn [velocity position].
    rewrite (nextVelocity_falling ws projectToShape noiseFn time q x y z s vb) by done.
    split; [done|]. rewrite Hpos. xred. f_equal. apply RV_eq; simpl; ring.
  - rewrite Nat.iter_succ. set (qn := Nat.iter (S n) _ q) in *.
    unfold nextParticle. cbn [velocity position].
    rewrite (nextVelocity_falling ws projectToShape noiseFn time qn
               x (y - 5 * d * INR (S n)) z 5 vb);
      [|done|done|done|done|done|done|done|by rewrite IHp|by rewrite IHv|lra].
    split; [done|]. rewrite IHp. cbn [default]. xred. f_equal.
    rewrite (S_INR (S n)). apply RV_eq; ring.
Qed.

(** X13: with the identity projector, no turbulence and no flow, a
    verticalBias of 5 or more makes a particle fall at the speed limit and
    no faster: once 0.8 * speed + 0.2 * verticalBias reaches 5, the
    velocity is [0, -5, 0] after every frame, and the height goes down by
    5 * dt a frame, whatever the verticalBias. *)
Theorem falling_at_speed_limit (n : nat) (σ : store xreal) (p : loc)
    (q : particle xreal) (w : loc) (ws : gmap string (value xreal)) (d vb s : R)
    projectToShape noiseFn time (x y z : R) :
  particles σ !! p = Some q →
  states σ !! w = Some ws →
  finite_state ws = true →
  identity_projector projectToShape →
  finite_noise noiseFn →
  finite_time time = true →
  to_number (ws !! "turbulence") = ndec 0 0 →
  to_number (ws !! "flowSpeed") = ndec 0 0 →
  to_number (ws !! "verticalBias") = Fin vb →
  5 <= vb →
  default zero3 (position q) = RV x y z →
  default zero3 (velocity q) = RV 0 (- s) 0 →
  5 <= 8 / 10 * s + 2 / 10 * vb →
  ∃ σ' q',
    frames (S n) p (Fin d) w projectToShape noiseFn time σ = Some (tt, σ') ∧
    particles σ' !! p = Some q' ∧
    velocity q' = Some (RV 0 (- 5) 0) ∧
    position q' = Some (RV x (y - 5 * d * INR (S n)) z).
Proof.
  intros Hp Hw Hws Hid Hnoise Htime Hturb Hflow Hvert Hvb Hpos Hvel Hm.
  cbn [ndec xreal_number] in Hturb, Hflow. rewrite xdec_int in Hturb, Hflow.
  destruct (frames_falling n d vb s ws projectToShape noiseFn time q x y z
              Hws Hid Hnoise Htime Hturb Hflow Hvert Hvb Hpos Hvel Hm) as [Hv Hpos'].
  eexists _, _. split; [by apply frames_run|]. cbn [particles].
  split; [apply lookup_insert_eq|]. done.
Qed.

End Exact_engine.

(** ** The further properties at concrete scenes *)

Section More_witnesses.
Local Open Scope R_scope.

Lemma norm3_3_0_4 : norm3 (IZR 3 / 10 ^ 0) (IZR 0 / 10 ^ 0) (IZR 4 / 10 ^ 0) = 5.
Proof.
  unfold norm3. cbn [pow].
  replace (3 / 1 * (3 / 1) + 0 / 1 * (0 / 1) + 4 / 1 * (4 / 1)) with (5 * 5) by field.
  apply sqrt_square. lra.
Qed.

Lemma applyMapping_range_witness :
  ∃ w σ' o',
    applyMapping stormInputs RAINY_MAPPING None
      (scene restingParticle defaultWeatherState) = Some (w, σ') ∧
    states σ' !! w = Some o' ∧
    o' !! "verticalBias" = Some (VNum (Fin 40)).
Proof.
  destruct (applyMapping_range stormInputs RAINY_MAPPING None
              (scene restingParticle defaultWeatherState) defaultWeatherState
              "verticalBias" "precipitation"
              (IZR 10 / 10 ^ 0) (IZR 40 / 10 ^ 0) (IZR 2 / 10 ^ 0))
    as (w & σ' & o' & v & Hrun & Hw & Hv & _ & _ & _ & Hmax & _).
  - reflexivity.
  - reflexivity.
  - reflexivity.
  - exists w, σ', o'. split; [exact Hrun|]. split; [exact Hw|].
    rewrite Hv by (left; discriminate).
    rewrite Hmax by (cbn [pow]; lra). do 3 f_equal. cbn [pow]. field.
Defined.

Lemma applyMapping_NaN_input_witness :
  ∃ w σ' o',
    applyMapping {[ "precipitation" := NaN ]} RAINY_MAPPING None
      (scene restingParticle defaultWeatherState) = Some (w, σ') ∧
    states σ' !! w = Some o' ∧
    o' !! "turbulence" = Some (VNum NaN).
Proof.
  destruct (applyMapping_NaN_input {[ "precipitation" := NaN ]} RAINY_MAPPING None
              (scene restingParticle defaultWeatherState) defaultWeatherState
              "turbulence" (Rule "precipitation" (ndec 1 1) (ndec 1 0)))
    as (w & σ' & o' & Hrun & Hw & Hv & _).
  - reflexivity.
  - reflexivity.
  - reflexivity.
  - exists w, σ', o'. split; [exact Hrun|]. split; [exact Hw|].
    apply Hv. left. discriminate.
Defined.

Lemma applyMapping_every_frame_witness :
  ∃ w1 σ1 σ1' w2 σ2,
    applyMapping stormInputs RAINY_MAPPING (Some 1%positive)
      (scene restingParticle defaultWeatherState) = Some (w1, σ1) ∧
    setField w1 "flowDirection" (VVec (Vec3 1%float 0%float 0%float)) σ1
    = Some (tt, σ1') ∧
    applyMapping {[ "humidity" := ndec 5 1 ]} RAINY_MAPPING (Some 1%positive) σ1'
    = Some (w2, σ2) ∧
    w2 ≠ w1 ∧
    states σ2 !! w2
    = Some (mappedState {[ "humidity" := ndec 5 1 ]} RAINY_MAPPING defaultWeatherState) ∧
    states σ2 !! w1
    = Some (<["flowDirection" := VVec (Vec3 1%float 0%float 0%float)]>
              (mappedState stormInputs RAINY_MAPPING defaultWeatherState)) ∧
    states σ2 !! 1%positive = Some defaultWeatherState.
Proof.
  apply (applyMapping_every_frame stormInputs {[ "humidity" := ndec 5 1 ]}
           RAINY_MAPPING 1%positive (scene restingParticle defaultWeatherState)
           defaultWeatherState "flowDirection" (VVec (Vec3 1%float 0%float 0%float))).
  reflexivity.
Defined.

Lemma normalizeSafe_unit_vector_witness :
  ∃ a' b' c',
    normalizeSafe (RV (IZR 3 / 10 ^ 0) (IZR 0 / 10 ^ 0) (IZR 4 / 10 ^ 0)) = RV a' b' c' ∧
    norm3 a' b' c' = 1.
Proof.
  destruct (normalizeSafe_unit_vector (IZR 3 / 10 ^ 0) (IZR 0 / 10 ^ 0) (IZR 4 / 10 ^ 0))
    as (a' & b' & c' & Hn & H1 & _).
  - rewrite norm3_3_0_4. lra.
  - exists a', b', c'. split; [exact Hn|exact H1].
Defined.

Lemma clampLength_clamps_witness :
  ∃ k, 0 <= k ∧
    clampLength (RV (IZR 3 / 10 ^ 0) (IZR 0 / 10 ^ 0) (IZR 4 / 10 ^ 0)) (Fin 1) (Fin 2)
    = RV (IZR 3 / 10 ^ 0 * k) (IZR 0 / 10 ^ 0 * k) (IZR 4 / 10 ^ 0 * k) ∧
    1 <= norm3 (IZR 3 / 10 ^ 0 * k) (IZR 0 / 10 ^ 0 * k) (IZR 4 / 10 ^ 0 * k) <= 2.
Proof.
  destruct (clampLength_clamps (IZR 3 / 10 ^ 0) (IZR 0 / 10 ^ 0) (IZR 4 / 10 ^ 0) 1 2)
    as [_ Hclamp].
  - lra.
  - lra.
  - destruct Hclamp as (k & Hk & Hc & _ & Hlen & _).
    + rewrite norm3_3_0_4. lra.
    + exists k. split; [exact Hk|]. split; [exact Hc|exact Hlen].
Defined.

Lemma updateParticle_displacement_witness :
  ∃ σ' q' x y z vx vy vz,
    updateParticle 1%positive (Fin (1 / 10)) 1%positive (Some eastProjector)
      (Some northNoise) (Some (ndec 3 0)) (scene driftingParticle rainState)
    = Some (tt, σ') ∧
    particles σ' !! 1%positive = Some q' ∧
    default zero3 (position driftingParticle) = RV x y z ∧
    velocity q' = Some (RV vx vy vz) ∧
    position q' = Some (RV (x + vx * (1 / 10)) (y + vy * (1 / 10)) (z + vz * (1 / 10))) ∧
    norm3 (vx * (1 / 10)) (vy * (1 / 10)) (vz * (1 / 10)) <= 5 * Rabs (1 / 10).
Proof.
  apply (updateParticle_displacement (scene driftingParticle rainState)
           1%positive driftingParticle 1%positive rainState).
  - reflexivity.
  - reflexivity.
  - reflexivity.
  - reflexivity.
  - intros f [= <-] pos (a & b & c & ->)%fin_vec_inv. reflexivity.
  - intros f [= <-] pos t _ _. reflexivity.
  - reflexivity.
Defined.

Lemma frames_speed_limit_witness :
  ∃ σ' q' a b c,
    frames 3 1%positive (Fin (1 / 10)) 1%positive (Some eastProjector)
      (Some northNoise) None (scene fallingParticle stormState) = Some (tt, σ') ∧
    particles σ' !! 1%positive = Some q' ∧
    finite_particle q' = true ∧
    velocity q' = Some (RV a b c) ∧ norm3 a b c <= 5.
Proof.
  apply (frames_speed_limit 2 (scene fallingParticle stormState)
           1%positive fallingParticle 1%positive stormState).
  - reflexivity.
  - reflexivity.
  - reflexivity.
  - reflexivity.
  - intros f [= <-] pos (a & b & c & ->)%fin_vec_inv. reflexivity.
  - intros f [= <-] pos t _ _. reflexivity.
  - reflexivity.
Defined.

Lemma frames_life_decay_witness :
  ∃ σ' q',
    frames 4 1%positive (Fin (1 / 2)) 1%positive None None None
      (scene restingParticle slowState) = Some (tt, σ') ∧
    particles σ' !! 1%positive = Some q' ∧
    default (ndec 1 0) (life q') = Fin 0.
Proof.
  destruct (frames_life_decay 4 (scene restingParticle slowState) 1%positive
              restingParticle 1%positive slowState (1 / 2) (IZR 2 / 10 ^ 0)
              (IZR 1 / 10 ^ 0) None None None)
    as (σ' & q' & Hrun & Hq' & Hl & _).
  - reflexivity.
  - reflexivity.
  - reflexivity.
  - reflexivity.
  - exists σ', q'. split; [exact Hrun|]. split; [exact Hq'|]. rewrite Hl. f_equal.
    cbn [pow INR]. rewrite Rmax_left by lra. field.
Defined.

Lemma updateParticle_uninitialised_witness :
  updateParticle 1%positive (ndec 1 1) 1%positive (Some eastProjector)
    (Some northNoise) None (scene bareParticle rainState)
  = updateParticle 1%positive (ndec 1 1) 1%positive (Some eastProjector)
      (Some northNoise) None
      (withParticle (scene bareParticle rainState) 1%positive (initialised bareParticle))
  :> option (unit * store float).
Proof.
  apply (updateParticle_uninitialised (scene bareParticle rainState) 1%positive
           bareParticle 1%positive rainState).
  - reflexivity.
  - reflexivity.
Defined.

Lemma updateParticle_commute_witness :
  (updateParticle 1%positive (ndec 1 1) 1%positive None None None;;
   updateParticle 2%positive (ndec 1 1) 1%positive (Some eastProjector) None None)
    twoParticles
  = (updateParticle 2%positive (ndec 1 1) 1%positive (Some eastProjector) None None;;
     updateParticle 1%positive (ndec 1 1) 1%positive None None None)
      twoParticles
  :> option (unit * store float).
Proof.
  apply (updateParticle_commute twoParticles 1%positive 2%positive
           restingParticle driftingParticle 1%positive 1%positive rainState rainState).
  - discriminate.
  - reflexivity.
  - reflexivity.
  - reflexivity.
  - reflexivity.
Defined.

Lemma v_direction_normalised_witness :
  v_direction windyState
  = RV (IZR 3 / 10 ^ 0 / 5 * (IZR 2 / 10 ^ 0)) (IZR 0 / 10 ^ 0 / 5 * (IZR 2 / 10 ^ 0))
       (IZR 4 / 10 ^ 0 / 5 * (IZR 2 / 10 ^ 0)) ∧
  v_direction
    (<["flowDirection" := VVec (RV (IZR 3 / 10 ^ 0 * 2) (IZR 0 / 10 ^ 0 * 2)
                                   (IZR 4 / 10 ^ 0 * 2))]> windyState)
  = v_direction windyState.
Proof.
  destruct (v_direction_normalised windyState
              (<["flowDirection" := VVec (RV (IZR 3 / 10 ^ 0 * 2) (IZR 0 / 10 ^ 0 * 2)
                                             (IZR 4 / 10 ^ 0 * 2))]> windyState)
              (IZR 3 / 10 ^ 0) (IZR 0 / 10 ^ 0) (IZR 4 / 10 ^ 0) (IZR 2 / 10 ^ 0) 2)
    as (Hv & _ & Hk).
  - reflexivity.
  - reflexivity.
  - rewrite norm3_3_0_4. lra.
  - lra.
  - reflexivity.
  - reflexivity.
  - split; [|exact Hk]. rewrite Hv, norm3_3_0_4. reflexivity.
Defined.

Lemma terminal_velocity_witness :
  ∃ σ' q' a' b' c',
    frames 2 1%positive (Fin (1 / 10)) 1%positive None (Some northNoise) None
      (scene driftingParticle drizzleState) = Some (tt, σ') ∧
    particles σ' !! 1%positive = Some q' ∧
    default zero3 (velocity q') = RV a' b' c' ∧
    a' = IZR 3 / 10 ^ 0 * (8 / 10) ^ 2 ∧
    b' - - (IZR 3 / 10 ^ 0) = (IZR 0 / 10 ^ 0 - - (IZR 3 / 10 ^ 0)) * (8 / 10) ^ 2.
Proof.
  destruct (terminal_velocity 2 (scene driftingParticle drizzleState) 1%positive
              driftingParticle 1%positive drizzleState (1 / 10) (IZR 3 / 10 ^ 0)
              None (Some northNoise) None
              (IZR 0 / 10 ^ 0) (IZR 0 / 10 ^ 0) (IZR 0 / 10 ^ 0)
              (IZR 3 / 10 ^ 0) (IZR 0 / 10 ^ 0) (IZR 0 / 10 ^ 0))
    as (σ' & q' & a' & b' & c' & Hrun & Hq' & Hv & Ha & Hb & _).
  - reflexivity.
  - reflexivity.
  - reflexivity.
  - intros f [=].
  - intros f [= <-] pos t _ _. reflexivity.
  - reflexivity.
  - reflexivity.
  - reflexivity.
  - reflexivity.
  - cbn [pow]. rewrite Rabs_pos_eq; lra.
  - reflexivity.
  - reflexivity.
  - unfold norm3. cbn [pow].
    replace (3 / 1 * (3 / 1) + 0 / 1 * (0 / 1) + 0 / 1 * (0 / 1)) with (3 * 3) by field.
    rewrite sqrt_square; lra.
  - exists σ', q', a', b', c'. repeat split; assumption.
Defined.

Lemma falling_at_speed_limit_witness :
  ∃ σ' q',
    frames 3 1%positive (Fin (1 / 10)) 1%positive None None None
      (scene (Particle (Some (RV 0 20 0)) (Some (RV 0 (- 30) 0)) (Some (Fin 1)) ∅)
             stormState) = Some (tt, σ') ∧
    particles σ' !! 1%positive = Some q' ∧
    velocity q' = Some (RV 0 (- 5) 0) ∧
    position q' = Some (RV 0 (20 - 5 * (1 / 10) * INR 3) 0).
Proof.
  apply (falling_at_speed_limit 2
           (scene (Particle (Some (RV 0 20 0)) (Some (RV 0 (- 30) 0)) (Some (Fin 1)) ∅)
                  stormState)
           1%positive
           (Particle (Some (RV 0 20 0)) (Some (RV 0 (- 30) 0)) (Some (Fin 1)) ∅)
           1%positive stormState (1 / 10) (IZR 30 / 10 ^ 0) 30).
  - reflexivity.
  - reflexivity.
  - reflexivity.
  - intros f [=].
  - intros f [=].
  - reflexivity.
  - reflexivity.
  - reflexivity.
  - reflexivity.
  - cbn [pow]. lra.
  - reflexivity.
  - reflexivity.
  - cbn [pow]. lra.
Defined.

End More_witnesses.
